(** * DatabaseService: the data-access and answer-aggregation layer

    A shallow embedding of the [DatabaseService] class (the query layer and
    the aggregation routine) together with a small relational model of the
    storage it talks to.  Every method is a computation in a state-and-error
    monad over a [World]: the tables, the statements handed to the
    connection pool so far, and the source of random UUIDs. *)

From Stdlib Require Import List ZArith Bool Lia Ascii String.
From Stdlib Require Import Sorting.Sorted Sorting.Permutation.
Import ListNotations.

Local Open Scope string_scope.
Local Open Scope list_scope.
Local Open Scope Z_scope.

(** ** Rows and tables *)

(** Modelled from the spec: the schema script ([queries/schema]) is not part
    of the sources.  Tables and columns follow the data model of the
    specification and the column lists of the service's own statements.
    Identifiers are integers handed out by a per-table sequence; the
    optional [correct_answer] is [None] when the column is NULL.  A table is
    the list of its rows in insertion order, which is the order a SELECT
    without ORDER BY yields them in.  No constraint is attached to a
    table: an INSERT with well-shaped parameters is never refused, the
    uniqueness of event keys being the business of
    [generateUniqueEventKey]. *)
Record Room := mkRoom {
  room_id : Z;
  event_key : string;
  room_name : string;
  presenter_id : string }.

Record Quiz := mkQuiz {
  quiz_id : Z;
  max_duration : Z;
  title : string;
  qz_room_id : Z }.

Record Question := mkQuestion {
  question_id : Z;
  question_label : string;
  correct_answer : option string;
  qn_quiz_id : Z }.

Record Choice := mkChoice {
  choice_id : Z;
  choice_label : string;
  c_question_id : Z }.

Record AnswerEntry := mkAnswerEntry {
  a_question_id : Z;
  participant_id : string;
  answer_label : string }.

Record Database := mkDatabase {
  Room_t : list Room;
  Quiz_t : list Quiz;
  Question_t : list Question;
  Choice_t : list Choice;
  AnswerEntry_t : list AnswerEntry;
  room_seq : Z;
  quiz_seq : Z;
  question_seq : Z;
  choice_seq : Z }.

Definition empty_db : Database := mkDatabase [] [] [] [] [] 0 0 0 0.

(** A row of [SELECT * FROM <any table>]. *)
Inductive any_row :=
| ARoom (r : Room)
| AQuiz (z : Quiz)
| AQuestion (q : Question)
| AChoice (c : Choice)
| AAnswerEntry (a : AnswerEntry).

(** A statement parameter.  The driver sends every parameter as text and the
    server reads it back at the column's type; an identifier or a duration
    travels as [VInt] whether the method holds it as a number or as its
    decimal string ([toString], [String(..)]). *)
Inductive value :=
| VInt (z : Z)
| VText (s : string).

(** The driver's [QueryResult], with the rows typed by the statement. *)
Record QueryResult (R : Type) := mkResult {
  rows : list R;
  rowCount : nat }.
Arguments mkResult {R} _ _.
Arguments rows {R} _.
Arguments rowCount {R} _.

Definition selected {R} (l : list R) : QueryResult R := mkResult l (List.length l).
Definition affected {R} (n : nat) : QueryResult R := mkResult [] n.

(** ** Relational operators *)

Section Relational.
Context {A : Type}.
Variable key : A -> Z.

(** ORDER BY key (ascending), as a stable insertion sort. *)
Fixpoint insert_by (x : A) (l : list A) : list A :=
  match l with
  | [] => [x]
  | y :: l' => if key x <=? key y then x :: l else y :: insert_by x l'
  end.

Fixpoint order_by (l : list A) : list A :=
  match l with
  | [] => []
  | x :: l' => insert_by x (order_by l')
  end.

End Relational.

(** ORDER BY key DESC. *)
Definition order_by_desc {A} (key : A -> Z) (l : list A) : list A :=
  order_by (fun x => - key x) l.

(** LIMIT n. *)
Definition limit {A} (n : nat) (l : list A) : list A := firstn n l.

(** UPDATE .. SET .. WHERE.  The rows that match are rewritten and every row
    keeps its place in the list.  The place of a rewritten row is a choice
    of this model: the storage may yield it elsewhere in a scan without ORDER
    BY, so nothing is stated below about where an updated quiz or question
    stands among the others after an update, beyond what is said row by
    row. *)
Definition update_where {A} (p : A -> bool) (f : A -> A) (l : list A) : list A :=
  map (fun x => if p x then f x else x) l.

(** ** The statements of the service *)

(** One constructor per statement text in the class; the index is the type
    of the rows it returns.  The two constructors with an argument are the
    two texts that a value is spliced into. *)
Inductive stmt : Type -> Type :=
| Q_resetDatabase_schema : stmt Empty_set
| Q_resetDatabase_data : stmt Empty_set
| Q_getAllFromTable (tableName : string) : stmt any_row
| Q_getAllQuestionsByEventKey : stmt Question
| Q_getAllChoicesByQuestion : stmt Choice
| Q_createAnswer : stmt Empty_set
| Q_generateUniqueEventKey (eventKey : string) : stmt string
| Q_createRoom_insert : stmt Empty_set
| Q_createRoom_select : stmt Room
| Q_createQuiz_insert : stmt Empty_set
| Q_createQuiz_select : stmt Quiz
| Q_createQuestion_insert3 : stmt Empty_set
| Q_createQuestion_insert2 : stmt Empty_set
| Q_createQuestion_select : stmt Question
| Q_createChoices_insert : stmt Empty_set
| Q_getAllAnswersByQuiz : stmt AnswerEntry
| Q_getRoomByEventKey : stmt Room
| Q_getAllQuizzesByEventKey : stmt Quiz
| Q_updateQuiz_update : stmt Empty_set
| Q_updateQuiz_select : stmt Quiz
| Q_updateQuestion_label : stmt Empty_set
| Q_updateQuestion_both : stmt Empty_set
| Q_updateQuestion_select : stmt Question
| Q_getAllRoomsByPresenter : stmt Room
| Q_getAllAnswersByQuestion : stmt AnswerEntry.

(** What the pool is handed: the query text and its parameter array. *)
Record Sent := mkSent {
  text : string;
  values : list value }.

(** JavaScript's [s.slice(0, n)]. *)
Definition slice0 (n : nat) (s : string) : string := substring 0 n s.

Definition has_quote (s : string) : bool :=
  existsb (Ascii.eqb "'"%char) (list_ascii_of_string s).

(** ** The world of a run, and the monad of the methods *)

(** The tables, the statements handed to the pool so far (oldest first), and
    [uuidv4]: the values it will return, with the number already drawn. *)
Record World := mkWorld {
  store : Database;
  sent : list Sent;
  uuids : nat -> string;
  drawn : nat }.

Inductive error :=
| QueryError   (* the pool rejected the statement *)
| TypeError    (* a property of [undefined] was read *)
| OutOfFuel.   (* the loop was cut off by the model, not by the code *)

Inductive outcome (A : Type) :=
| Ok (a : A) (w : World)
| Err (e : error) (w : World).
Arguments Ok {A} _ _.
Arguments Err {A} _ _.

(** What a run returned, and the world it left. *)
Definition result {A} (o : outcome A) : option A :=
  match o with
  | Ok a _ => Some a
  | Err _ _ => None
  end.

Definition after {A} (o : outcome A) : World :=
  match o with
  | Ok _ w => w
  | Err _ w => w
  end.

Definition M (A : Type) : Type := World -> outcome A.

Definition ret {A} (a : A) : M A := fun w => Ok a w.

Definition throw {A} (e : error) : M A := fun w => Err e w.

Definition bind {A B} (m : M A) (k : A -> M B) : M B :=
  fun w =>
    match m w with
    | Ok a w' => k a w'
    | Err e w' => Err e w'
    end.

Notation "x <- m ;; k" := (bind m (fun x => k))
  (at level 61, m at next level, right associativity).
Notation "m ;; k" := (bind m (fun _ => k))
  (at level 61, right associativity).

Definition uuidv4 : M string :=
  fun w => Ok (uuids w (drawn w))
              (mkWorld (store w) (sent w) (uuids w) (S (drawn w))).

(** [for (..) { arr.push(..) }] over an array. *)
Definition push_each {A} (src : list A) (arr : list A) : list A :=
  fold_left (fun acc x => acc ++ [x]) src arr.

(** The [Question] interface the rows are reshaped into. *)
Module Iface.
Record Question := mkQuestion {
  questionId : Z;
  correctAnswer : option string;
  questionLabel : string;
  quizId : Z }.
End Iface.

(** One element of the aggregation's result. *)
Record Bundle := mkBundle {
  questionId : Z;
  questionLabel : string;
  choices : list string;
  answers : list string }.

Definition question_of_row (question : Question) : Iface.Question :=
  Iface.mkQuestion (question_id question) (correct_answer question)
    (question_label question) (qn_quiz_id question).

(** What the class imports and the sources do not hold:
    [CONSTANTS.DB_SCHEMA_NAME], the texts of the [schema] and [data]
    scripts and what running each script does to the tables, and what the
    storage does with the text of [getAllFromTable].  That text is
    [SELECT * FROM <schema>.] followed by whatever the caller passed, and the
    storage runs it as it stands: which rows come back, whether the text is
    refused ([None]) and what it does to the tables is for the storage to
    say, for every text. *)
Record Imports := mkImports {
  DB_SCHEMA_NAME : string;
  schema : string;
  data : string;
  run_schema : Database -> Database;
  run_data : Database -> Database;
  run_select_from : string -> Database -> option (Database * list any_row) }.

Section Service.

Variable imports : Imports.

Definition SCHEMA_NAME : string := DB_SCHEMA_NAME imports.

(** *** Query texts *)

Definition render {R} (s : stmt R) : string :=
  (match s with
  | Q_resetDatabase_schema => schema imports
  | Q_resetDatabase_data => data imports
  | Q_getAllFromTable tableName =>
"SELECT * FROM " ++ SCHEMA_NAME ++ "." ++ tableName
  | Q_getAllQuestionsByEventKey =>
"SELECT qn.question_id, qn.question_label, qn.correct_answer, qn.quiz_id
        FROM " ++ SCHEMA_NAME ++ ".Question qn, " ++ SCHEMA_NAME ++ ".Quiz qz, " ++ SCHEMA_NAME ++ ".Room r
        WHERE r.event_key = $1
        AND r.room_id = qz.room_id
        AND qn.quiz_id = qz.quiz_id
        ORDER BY qn.question_id"
  | Q_getAllChoicesByQuestion =>
"SELECT * FROM " ++ SCHEMA_NAME ++ ".Choice c WHERE c.question_id = $1;"
  | Q_createAnswer =>
"INSERT INTO " ++ SCHEMA_NAME ++ ".AnswerEntry (question_id, participant_id, answer_label) VALUES ($1,$2,$3);"
  | Q_generateUniqueEventKey eventKey =>
"
                SELECT event_key FROM " ++ SCHEMA_NAME ++ ".Room
                WHERE event_key = '" ++ eventKey ++ "'"
  | Q_createRoom_insert =>
"INSERT INTO " ++ SCHEMA_NAME ++ ".Room (event_key, room_name, presenter_id) VALUES ($1,$2,$3);"
  | Q_createRoom_select =>
"SELECT * FROM " ++ SCHEMA_NAME ++ ".Room WHERE event_key = $1"
  | Q_createQuiz_insert =>
"INSERT INTO " ++ SCHEMA_NAME ++ ".Quiz (max_duration, title, room_id) VALUES ($1,$2,$3);"
  | Q_createQuiz_select =>
"SELECT * FROM " ++ SCHEMA_NAME ++ ".Quiz
            WHERE room_id = $1
            ORDER BY quiz_id DESC
            LIMIT 1"
  | Q_createQuestion_insert3 =>
"INSERT INTO " ++ SCHEMA_NAME ++ ".Question (question_label, correct_answer, quiz_id) VALUES ($1,$2,$3);"
  | Q_createQuestion_insert2 =>
"INSERT INTO " ++ SCHEMA_NAME ++ ".Question (question_label, quiz_id) VALUES ($1,$2);"
  | Q_createQuestion_select =>
"SELECT * FROM " ++ SCHEMA_NAME ++ ".Question 
                WHERE quiz_id = $1 
                ORDER BY question_id DESC
                LIMIT 1"
  | Q_createChoices_insert =>
"INSERT INTO " ++ SCHEMA_NAME ++ ".Choice (choice_label, question_id) VALUES ($1,$2);"
  | Q_getAllAnswersByQuiz =>
"SELECT a.answer_label, a.question_id, a.participant_id 
            FROM " ++ SCHEMA_NAME ++ ".AnswerEntry a, " ++ SCHEMA_NAME ++ ".Question q
            WHERE q.quiz_id = $1
            AND q.question_id = a.question_id "
  | Q_getRoomByEventKey =>
"SELECT * FROM " ++ SCHEMA_NAME ++ ".Room
            WHERE event_key = $1"
  | Q_getAllQuizzesByEventKey =>
"SELECT q.quiz_id, q.max_duration, q.title, q.room_id
            FROM " ++ SCHEMA_NAME ++ ".Quiz q, " ++ SCHEMA_NAME ++ ".Room r
            WHERE r.event_key = $1
            AND r.room_id = q.room_id"
  | Q_updateQuiz_update =>
"UPDATE " ++ SCHEMA_NAME ++ ".Quiz
            SET max_duration = $1, title = $2
            WHERE quiz_id = $3"
  | Q_updateQuiz_select =>
"SELECT * FROM " ++ SCHEMA_NAME ++ ".Quiz
            WHERE quiz_id = $1
            LIMIT 1"
  | Q_updateQuestion_label =>
"UPDATE " ++ SCHEMA_NAME ++ ".Question
                SET question_label = $1
                WHERE question_id = $2"
  | Q_updateQuestion_both =>
"UPDATE " ++ SCHEMA_NAME ++ ".Question
                SET question_label = $1, correct_answer = $2
                WHERE question_id = $3"
  | Q_updateQuestion_select =>
"SELECT * FROM " ++ SCHEMA_NAME ++ ".Question
            WHERE question_id = $1
            LIMIT 1"
  | Q_getAllRoomsByPresenter =>
"SELECT * FROM " ++ SCHEMA_NAME ++ ".Room WHERE presenter_id = $1"
  | Q_getAllAnswersByQuestion =>
"SELECT * FROM " ++ SCHEMA_NAME ++ ".AnswerEntry WHERE question_id = $1"
  end)%string.


(** *** Statement semantics *)

(** A sequence's next value. *)
Definition nextval (seq : Z) : Z := seq + 1.

Definition insert_Room (k name p : string) (db : Database) : Database :=
  let id := nextval (room_seq db) in
  mkDatabase (Room_t db ++ [mkRoom id k name p]) (Quiz_t db) (Question_t db)
    (Choice_t db) (AnswerEntry_t db)
    id (quiz_seq db) (question_seq db) (choice_seq db).

Definition insert_Quiz (d : Z) (t : string) (room : Z) (db : Database) : Database :=
  let id := nextval (quiz_seq db) in
  mkDatabase (Room_t db) (Quiz_t db ++ [mkQuiz id d t room]) (Question_t db)
    (Choice_t db) (AnswerEntry_t db)
    (room_seq db) id (question_seq db) (choice_seq db).

Definition insert_Question (l : string) (ca : option string) (quiz : Z)
    (db : Database) : Database :=
  let id := nextval (question_seq db) in
  mkDatabase (Room_t db) (Quiz_t db) (Question_t db ++ [mkQuestion id l ca quiz])
    (Choice_t db) (AnswerEntry_t db)
    (room_seq db) (quiz_seq db) id (choice_seq db).

Definition insert_Choice (l : string) (q : Z) (db : Database) : Database :=
  let id := nextval (choice_seq db) in
  mkDatabase (Room_t db) (Quiz_t db) (Question_t db)
    (Choice_t db ++ [mkChoice id l q]) (AnswerEntry_t db)
    (room_seq db) (quiz_seq db) (question_seq db) id.

Definition insert_AnswerEntry (q : Z) (p l : string) (db : Database) : Database :=
  mkDatabase (Room_t db) (Quiz_t db) (Question_t db)
    (Choice_t db) (AnswerEntry_t db ++ [mkAnswerEntry q p l])
    (room_seq db) (quiz_seq db) (question_seq db) (choice_seq db).

Definition set_Quiz_t (l : list Quiz) (db : Database) : Database :=
  mkDatabase (Room_t db) l (Question_t db) (Choice_t db) (AnswerEntry_t db)
    (room_seq db) (quiz_seq db) (question_seq db) (choice_seq db).

Definition set_Question_t (l : list Question) (db : Database) : Database :=
  mkDatabase (Room_t db) (Quiz_t db) l (Choice_t db) (AnswerEntry_t db)
    (room_seq db) (quiz_seq db) (question_seq db) (choice_seq db).

(** FROM Question qn, Quiz qz, Room r WHERE r.event_key = $1
    AND r.room_id = qz.room_id AND qn.quiz_id = qz.quiz_id: one output row
    per matching triple. *)
Definition join_Question_Quiz_Room (k : string) (db : Database) : list Question :=
  flat_map (fun qn =>
    flat_map (fun qz =>
      flat_map (fun r =>
        if (event_key r =? k)%string && (room_id r =? qz_room_id qz)
           && (qn_quiz_id qn =? quiz_id qz)
        then [qn] else [])
      (Room_t db))
    (Quiz_t db))
  (Question_t db).

(** FROM AnswerEntry a, Question q WHERE q.quiz_id = $1
    AND q.question_id = a.question_id. *)
Definition join_AnswerEntry_Question (quiz : Z) (db : Database) : list AnswerEntry :=
  flat_map (fun a =>
    flat_map (fun q =>
      if (qn_quiz_id q =? quiz) && (question_id q =? a_question_id a)
      then [a] else [])
    (Question_t db))
  (AnswerEntry_t db).

(** FROM Quiz q, Room r WHERE r.event_key = $1 AND r.room_id = q.room_id. *)
Definition join_Quiz_Room (k : string) (db : Database) : list Quiz :=
  flat_map (fun q =>
    flat_map (fun r =>
      if (event_key r =? k)%string && (room_id r =? qz_room_id q)
      then [q] else [])
    (Room_t db))
  (Quiz_t db).

(** The storage's answer to a statement and its parameter array: the new
    tables and the result, or [None] when the statement is refused. *)
Definition exec {R} (s : stmt R)
    : list value -> Database -> option (Database * QueryResult R) :=
  match s in stmt R
        return list value -> Database -> option (Database * QueryResult R) with
  | Q_resetDatabase_schema => fun vs db =>
      match vs with
      | [] => Some (run_schema imports db, affected 0)
      | _ => None
      end
  | Q_resetDatabase_data => fun vs db =>
      match vs with
      | [] => Some (run_data imports db, affected 0)
      | _ => None
      end
  | Q_getAllFromTable tableName => fun vs db =>
      match vs, run_select_from imports tableName db with
      | [], Some (db', l) => Some (db', selected l)
      | _, _ => None
      end
  | Q_getAllQuestionsByEventKey => fun vs db =>
      match vs with
      | [VText k] =>
          Some (db, selected (order_by question_id (join_Question_Quiz_Room k db)))
      | _ => None
      end
  | Q_getAllChoicesByQuestion => fun vs db =>
      match vs with
      | [VInt q] =>
          Some (db, selected (filter (fun c => c_question_id c =? q) (Choice_t db)))
      | _ => None
      end
  | Q_createAnswer => fun vs db =>
      match vs with
      | [VInt q; VText p; VText l] =>
          Some (insert_AnswerEntry q p l db, affected 1)
      | _ => None
      end
  | Q_generateUniqueEventKey eventKey => fun vs db =>
      match vs with
      | [] =>
          if has_quote eventKey then None
          else Some (db, selected (map event_key
                  (filter (fun r => (event_key r =? eventKey)%string) (Room_t db))))
      | _ => None
      end
  | Q_createRoom_insert => fun vs db =>
      match vs with
      | [VText k; VText name; VText p] => Some (insert_Room k name p db, affected 1)
      | _ => None
      end
  | Q_createRoom_select => fun vs db =>
      match vs with
      | [VText k] =>
          Some (db, selected (filter (fun r => (event_key r =? k)%string) (Room_t db)))
      | _ => None
      end
  | Q_createQuiz_insert => fun vs db =>
      match vs with
      | [VInt d; VText t; VInt room] => Some (insert_Quiz d t room db, affected 1)
      | _ => None
      end
  | Q_createQuiz_select => fun vs db =>
      match vs with
      | [VInt room] =>
          Some (db, selected (limit 1 (order_by_desc quiz_id
                  (filter (fun z => qz_room_id z =? room) (Quiz_t db)))))
      | _ => None
      end
  | Q_createQuestion_insert3 => fun vs db =>
      match vs with
      | [VText l; VText ca; VInt quiz] =>
          Some (insert_Question l (Some ca) quiz db, affected 1)
      | _ => None
      end
  | Q_createQuestion_insert2 => fun vs db =>
      match vs with
      | [VText l; VInt quiz] => Some (insert_Question l None quiz db, affected 1)
      | _ => None
      end
  | Q_createQuestion_select => fun vs db =>
      match vs with
      | [VInt quiz] =>
          Some (db, selected (limit 1 (order_by_desc question_id
                  (filter (fun q => qn_quiz_id q =? quiz) (Question_t db)))))
      | _ => None
      end
  | Q_createChoices_insert => fun vs db =>
      match vs with
      | [VText l; VInt q] => Some (insert_Choice l q db, affected 1)
      | _ => None
      end
  | Q_getAllAnswersByQuiz => fun vs db =>
      match vs with
      | [VInt quiz] => Some (db, selected (join_AnswerEntry_Question quiz db))
      | _ => None
      end
  | Q_getRoomByEventKey => fun vs db =>
      match vs with
      | [VText k] =>
          Some (db, selected (filter (fun r => (event_key r =? k)%string) (Room_t db)))
      | _ => None
      end
  | Q_getAllQuizzesByEventKey => fun vs db =>
      match vs with
      | [VText k] => Some (db, selected (join_Quiz_Room k db))
      | _ => None
      end
  | Q_updateQuiz_update => fun vs db =>
      match vs with
      | [VInt d; VText t; VInt quiz] =>
          let hit := fun z => quiz_id z =? quiz in
          Some (set_Quiz_t
                  (update_where hit
                     (fun z => mkQuiz (quiz_id z) d t (qz_room_id z)) (Quiz_t db)) db,
                affected (List.length (filter hit (Quiz_t db))))
      | _ => None
      end
  | Q_updateQuiz_select => fun vs db =>
      match vs with
      | [VInt quiz] =>
          Some (db, selected (limit 1 (filter (fun z => quiz_id z =? quiz) (Quiz_t db))))
      | _ => None
      end
  | Q_updateQuestion_label => fun vs db =>
      match vs with
      | [VText l; VInt q] =>
          let hit := fun x => question_id x =? q in
          Some (set_Question_t
                  (update_where hit
                     (fun x => mkQuestion (question_id x) l (correct_answer x)
                                 (qn_quiz_id x)) (Question_t db)) db,
                affected (List.length (filter hit (Question_t db))))
      | _ => None
      end
  | Q_updateQuestion_both => fun vs db =>
      match vs with
      | [VText l; VText ca; VInt q] =>
          let hit := fun x => question_id x =? q in
          Some (set_Question_t
                  (update_where hit
                     (fun x => mkQuestion (question_id x) l (Some ca)
                                 (qn_quiz_id x)) (Question_t db)) db,
                affected (List.length (filter hit (Question_t db))))
      | _ => None
      end
  | Q_updateQuestion_select => fun vs db =>
      match vs with
      | [VInt q] =>
          Some (db, selected (limit 1
                  (filter (fun x => question_id x =? q) (Question_t db))))
      | _ => None
      end
  | Q_getAllRoomsByPresenter => fun vs db =>
      match vs with
      | [VText p] =>
          Some (db, selected (filter (fun r => (presenter_id r =? p)%string) (Room_t db)))
      | _ => None
      end
  | Q_getAllAnswersByQuestion => fun vs db =>
      match vs with
      | [VInt q] =>
          Some (db, selected (filter (fun a => a_question_id a =? q) (AnswerEntry_t db)))
      | _ => None
      end
  end.

(** [this.pool.query(text, values)]: the text and the values are handed
    over, and the storage answers. *)
Definition pool_query {R} (s : stmt R) (vs : list value) : M (QueryResult R) :=
  fun w =>
    let log := sent w ++ [mkSent (render s) vs] in
    match exec s vs (store w) with
    | Some (db', r) => Ok r (mkWorld db' log (uuids w) (drawn w))
    | None => Err QueryError (mkWorld (store w) log (uuids w) (drawn w))
    end.

(** ** The methods of [DatabaseService] *)

(* DATABASE DEBUG *)

Definition resetDatabase : M unit :=
  pool_query Q_resetDatabase_schema [] ;;
  pool_query Q_resetDatabase_data [] ;;
  ret tt.

Definition getAllFromTable (tableName : string) : M (QueryResult any_row) :=
  pool_query (Q_getAllFromTable tableName) [].

(* CONTENT *)

Definition getAllQuestionsByEventKey (eventKey : string) : M (QueryResult Question) :=
  pool_query Q_getAllQuestionsByEventKey [VText eventKey].

Definition getAllChoicesByQuestion (questionId : Z) : M (QueryResult Choice) :=
  pool_query Q_getAllChoicesByQuestion [VInt questionId].

Definition createAnswer (questionId : Z) (participantId answerLabel : string)
    : M (QueryResult Empty_set) :=
  pool_query Q_createAnswer [VInt questionId; VText participantId; VText answerLabel].

(** The do-while loop, cut off after [fuel] candidates. *)
Fixpoint generateUniqueEventKey (fuel : nat) : M string :=
  match fuel with
  | O => throw OutOfFuel
  | S fuel' =>
      u <- uuidv4 ;;
      let eventKey := slice0 8 u in
      existingKeys <- pool_query (Q_generateUniqueEventKey eventKey) [] ;;
      if (0 <? rowCount existingKeys)%nat
      then generateUniqueEventKey fuel'
      else ret eventKey
  end.

Definition createRoom (eventKey name presenterId : string) : M (QueryResult Room) :=
  pool_query Q_createRoom_insert [VText eventKey; VText name; VText presenterId] ;;
  pool_query Q_createRoom_select [VText eventKey].

Definition createQuiz (maxDuration : Z) (title : string) (roomId : Z)
    : M (QueryResult Quiz) :=
  pool_query Q_createQuiz_insert [VInt maxDuration; VText title; VInt roomId] ;;
  pool_query Q_createQuiz_select [VInt roomId].

Definition createQuestion (questionLabel : string) (correctAnswer : option string)
    (quizId : Z) : M (QueryResult Question) :=
  match correctAnswer with
  | Some ca =>
      pool_query Q_createQuestion_insert3 [VText questionLabel; VText ca; VInt quizId]
  | None =>
      pool_query Q_createQuestion_insert2 [VText questionLabel; VInt quizId]
  end ;;
  pool_query Q_createQuestion_select [VInt quizId].

Fixpoint createChoices (questionId : Z) (choiceLabels : list string) : M unit :=
  match choiceLabels with
  | [] => ret tt
  | choiceLabel :: rest =>
      pool_query Q_createChoices_insert [VText choiceLabel; VInt questionId] ;;
      createChoices questionId rest
  end.

Definition createQuestionAndChoices (questionLabel : string)
    (correctAnswer : option string) (quizId : Z)
    (choiceLabels : option (list string)) : M (QueryResult Question) :=
  question <- createQuestion questionLabel correctAnswer quizId ;;
  match choiceLabels with
  | Some labels =>
      match rows question with
      | q0 :: _ => createChoices (question_id q0) labels
      | [] => throw TypeError
      end ;;
      ret question
  | None => ret question
  end.

Definition getAllAnswersByQuiz (quizId : Z) : M (QueryResult AnswerEntry) :=
  pool_query Q_getAllAnswersByQuiz [VInt quizId].

Definition getRoomByEventKey (eventKey : string) : M (QueryResult Room) :=
  pool_query Q_getRoomByEventKey [VText eventKey].

Definition getAllQuizzesByEventKey (eventKey : string) : M (QueryResult Quiz) :=
  pool_query Q_getAllQuizzesByEventKey [VText eventKey].

Definition updateQuiz (quizId : Z) (maxDuration : Z) (title : string)
    : M (QueryResult Quiz) :=
  pool_query Q_updateQuiz_update [VInt maxDuration; VText title; VInt quizId] ;;
  pool_query Q_updateQuiz_select [VInt quizId].

Definition updateQuestion (questionId : Z) (questionLabel : string)
    (correctAnswer : option string) : M (QueryResult Question) :=
  match correctAnswer with
  | None =>
      pool_query Q_updateQuestion_label [VText questionLabel; VInt questionId]
  | Some ca =>
      pool_query Q_updateQuestion_both [VText questionLabel; VText ca; VInt questionId]
  end ;;
  pool_query Q_updateQuestion_select [VInt questionId].

Definition getAllRoomsByPresenter (presenterId : string) : M (QueryResult Room) :=
  pool_query Q_getAllRoomsByPresenter [VText presenterId].

Definition getAllAnswersByQuestion (questionId : Z) : M (QueryResult AnswerEntry) :=
  pool_query Q_getAllAnswersByQuestion [VInt questionId].

(** The body of [for (let i=0; i<questions.length; i++)], from index [i] on. *)
Fixpoint getAllAnswersByEventKey_loop (questions : list Iface.Question)
    (allAnswers : list Bundle) : M (list Bundle) :=
  match questions with
  | [] => ret allAnswers
  | q :: rest =>
      choicesResult <- getAllChoicesByQuestion (Iface.questionId q) ;;
      let tempChoiceArray :=
        if (0 <? rowCount choicesResult)%nat
        then push_each (map choice_label (rows choicesResult)) []
        else [] in
      answersResult <- getAllAnswersByQuestion (Iface.questionId q) ;;
      let queryAnswers := map answer_label (rows answersResult) in
      let tempArray := push_each queryAnswers [] in
      getAllAnswersByEventKey_loop rest
        (allAnswers ++ [mkBundle (Iface.questionId q) (Iface.questionLabel q)
                          tempChoiceArray tempArray])
  end.

Definition getAllAnswersByEventKey (eventKey : string) : M (list Bundle) :=
  questionsResult <- getAllQuestionsByEventKey eventKey ;;
  let questions := map question_of_row (rows questionsResult) in
  getAllAnswersByEventKey_loop questions [].

End Service.

(** ** Vocabulary of the specification *)

(** Primary keys: no two rows of a table share their identifier. *)
Definition primary_keys (db : Database) : Prop :=
  NoDup (map room_id (Room_t db)) /\
  NoDup (map quiz_id (Quiz_t db)) /\
  NoDup (map question_id (Question_t db)) /\
  NoDup (map choice_id (Choice_t db)).

(** Every identifier in a table was handed out by the table's sequence. *)
Definition sequences_ahead (db : Database) : Prop :=
  Forall (fun r => room_id r <= room_seq db) (Room_t db) /\
  Forall (fun z => quiz_id z <= quiz_seq db) (Quiz_t db) /\
  Forall (fun q => question_id q <= question_seq db) (Question_t db) /\
  Forall (fun c => choice_id c <= choice_seq db) (Choice_t db).

Definition consistent (db : Database) : Prop :=
  primary_keys db /\ sequences_ahead db.

(** A computation keeps a property of the tables, whether it returns or
    fails on the way. *)
Definition preserves {A} (P : Database -> Prop) (m : M A) : Prop :=
  forall w, P (store w) -> P (store (after (m w))).

(** A question belongs to a room with event key [k]: its quiz is a quiz of
    such a room. *)
Definition in_room (k : string) (db : Database) (qn : Question) : bool :=
  existsb (fun qz =>
    (quiz_id qz =? qn_quiz_id qn) &&
    existsb (fun r => (room_id r =? qz_room_id qz) && (event_key r =? k)%string)
      (Room_t db))
    (Quiz_t db).

Definition choice_labels_of (db : Database) (q : Z) : list string :=
  map choice_label (filter (fun c => c_question_id c =? q) (Choice_t db)).

Definition answer_labels_of (db : Database) (q : Z) : list string :=
  map answer_label (filter (fun a => a_question_id a =? q) (AnswerEntry_t db)).

(** The bundle the specification asks for a question. *)
Definition bundle_of (db : Database) (qn : Question) : Bundle :=
  mkBundle (question_id qn) (question_label qn)
    (choice_labels_of db (question_id qn))
    (answer_labels_of db (question_id qn)).

(** The shape of a version-4 UUID as far as the service relies on it: 36
    characters, each a lower-case hexadecimal digit or a hyphen. *)
Definition uuid_char (c : ascii) : bool :=
  let n := nat_of_ascii c in
  ((48 <=? n) && (n <=? 57) || (97 <=? n) && (n <=? 102) || (n =? 45))%nat.

Definition is_uuid (s : string) : bool :=
  (String.length s =? 36)%nat && forallb uuid_char (list_ascii_of_string s).

(** The candidate key the [i]-th call of [uuidv4] from now on leads to. *)
Definition candidate (w : World) (i : nat) : string :=
  slice0 8 (uuids w (drawn w + i)).

Definition existing_keys (db : Database) : list string :=
  map event_key (Room_t db).

Definition key_taken (db : Database) (k : string) : bool :=
  existsb (fun k' => (k' =? k)%string) (existing_keys db).

(** A participant's submission, and a run of submissions in order. *)
Record Submission := mkSubmission {
  sub_question : Z;
  sub_participant : string;
  sub_label : string }.

Definition labels_for (q : Z) (subs : list Submission) : list string :=
  map sub_label (filter (fun s => sub_question s =? q) subs).

Section Harness.

Variable imports : Imports.

Fixpoint submit_all (subs : list Submission) : M unit :=
  match subs with
  | [] => ret tt
  | s :: rest =>
      createAnswer imports (sub_question s) (sub_participant s) (sub_label s) ;;
      submit_all rest
  end.

(** The INSERT that [createQuestion] sends: with or without the
    [correct_answer] column. *)
Definition createQuestion_insert (questionLabel : string)
    (correctAnswer : option string) (quizId : Z) : Sent :=
  match correctAnswer with
  | Some ca =>
      mkSent (render imports Q_createQuestion_insert3)
        [VText questionLabel; VText ca; VInt quizId]
  | None =>
      mkSent (render imports Q_createQuestion_insert2)
        [VText questionLabel; VInt quizId]
  end.

(** The two statements the aggregation sends for a question. *)
Definition probes (q : Z) : list Sent :=
  [mkSent (render imports Q_getAllChoicesByQuestion) [VInt q];
   mkSent (render imports Q_getAllAnswersByQuestion) [VInt q]].

(** What was handed to the pool between two worlds. *)
Definition sent_since (w : World) (w' : World) : list Sent :=
  skipn (List.length (sent w)) (sent w').

(** The world after one pass of the loop body of [generateUniqueEventKey]:
    a UUID drawn, the uniqueness check of its candidate sent. *)
Definition checked (w : World) : World :=
  mkWorld (store w)
    (sent w ++ [mkSent (render imports (Q_generateUniqueEventKey (candidate w 0))) []])
    (uuids w) (S (drawn w)).

(** The uniqueness checks sent for the first [n] candidates. *)
Definition checks (w : World) (n : nat) : list Sent :=
  map (fun i => mkSent (render imports (Q_generateUniqueEventKey (candidate w i))) [])
    (seq 0 n).

(** A call of a method of the service with its arguments (for
    [generateUniqueEventKey], with the bound on its loop). *)
Inductive call :=
| Call_resetDatabase
| Call_getAllFromTable (tableName : string)
| Call_getAllQuestionsByEventKey (eventKey : string)
| Call_getAllChoicesByQuestion (questionId : Z)
| Call_createAnswer (questionId : Z) (participantId answerLabel : string)
| Call_generateUniqueEventKey (fuel : nat)
| Call_createRoom (eventKey name presenterId : string)
| Call_createQuiz (maxDuration : Z) (title : string) (roomId : Z)
| Call_createQuestionAndChoices (questionLabel : string)
    (correctAnswer : option string) (quizId : Z) (choiceLabels : option (list string))
| Call_createQuestion (questionLabel : string) (correctAnswer : option string)
    (quizId : Z)
| Call_createChoices (questionId : Z) (choiceLabels : list string)
| Call_getAllAnswersByQuiz (quizId : Z)
| Call_getRoomByEventKey (eventKey : string)
| Call_getAllQuizzesByEventKey (eventKey : string)
| Call_updateQuiz (quizId : Z) (maxDuration : Z) (title : string)
| Call_updateQuestion (questionId : Z) (questionLabel : string)
    (correctAnswer : option string)
| Call_getAllRoomsByPresenter (presenterId : string)
| Call_getAllAnswersByQuestion (questionId : Z)
| Call_getAllAnswersByEventKey (eventKey : string).

Definition ignore {A} (m : M A) : M unit := m ;; ret tt.

Definition perform (c : call) : M unit :=
  match c with
  | Call_resetDatabase => resetDatabase imports
  | Call_getAllFromTable t => ignore (getAllFromTable imports t)
  | Call_getAllQuestionsByEventKey k => ignore (getAllQuestionsByEventKey imports k)
  | Call_getAllChoicesByQuestion q => ignore (getAllChoicesByQuestion imports q)
  | Call_createAnswer q p l => ignore (createAnswer imports q p l)
  | Call_generateUniqueEventKey fuel => ignore (generateUniqueEventKey imports fuel)
  | Call_createRoom k n p => ignore (createRoom imports k n p)
  | Call_createQuiz d t r => ignore (createQuiz imports d t r)
  | Call_createQuestionAndChoices l ca q cl =>
      ignore (createQuestionAndChoices imports l ca q cl)
  | Call_createQuestion l ca q => ignore (createQuestion imports l ca q)
  | Call_createChoices q cl => createChoices imports q cl
  | Call_getAllAnswersByQuiz q => ignore (getAllAnswersByQuiz imports q)
  | Call_getRoomByEventKey k => ignore (getRoomByEventKey imports k)
  | Call_getAllQuizzesByEventKey k => ignore (getAllQuizzesByEventKey imports k)
  | Call_updateQuiz q d t => ignore (updateQuiz imports q d t)
  | Call_updateQuestion q l ca => ignore (updateQuestion imports q l ca)
  | Call_getAllRoomsByPresenter p => ignore (getAllRoomsByPresenter imports p)
  | Call_getAllAnswersByQuestion q => ignore (getAllAnswersByQuestion imports q)
  | Call_getAllAnswersByEventKey k => ignore (getAllAnswersByEventKey imports k)
  end.

(** The query texts a call hands to the pool, in order. *)
Definition texts_sent (c : call) (w : World) : list string :=
  map text (sent_since w (after (perform c w))).

(** The text at position [i] of a call that splices nothing, as far as the
    method and the presence of its optional arguments decide it. *)
Definition template (c : call) (i : nat) : string :=
  match c with
  | Call_resetDatabase =>
      match i with
      | O => render imports Q_resetDatabase_schema
      | _ => render imports Q_resetDatabase_data
      end
  | Call_getAllFromTable _ | Call_generateUniqueEventKey _ => EmptyString
  | Call_getAllQuestionsByEventKey _ => render imports Q_getAllQuestionsByEventKey
  | Call_getAllChoicesByQuestion _ => render imports Q_getAllChoicesByQuestion
  | Call_createAnswer _ _ _ => render imports Q_createAnswer
  | Call_createRoom _ _ _ =>
      match i with
      | O => render imports Q_createRoom_insert
      | _ => render imports Q_createRoom_select
      end
  | Call_createQuiz _ _ _ =>
      match i with
      | O => render imports Q_createQuiz_insert
      | _ => render imports Q_createQuiz_select
      end
  | Call_createQuestionAndChoices _ ca _ _ =>
      match i with
      | O =>
          match ca with
          | Some _ => render imports Q_createQuestion_insert3
          | None => render imports Q_createQuestion_insert2
          end
      | S O => render imports Q_createQuestion_select
      | _ => render imports Q_createChoices_insert
      end
  | Call_createQuestion _ ca _ =>
      match i with
      | O =>
          match ca with
          | Some _ => render imports Q_createQuestion_insert3
          | None => render imports Q_createQuestion_insert2
          end
      | _ => render imports Q_createQuestion_select
      end
  | Call_createChoices _ _ => render imports Q_createChoices_insert
  | Call_getAllAnswersByQuiz _ => render imports Q_getAllAnswersByQuiz
  | Call_getRoomByEventKey _ => render imports Q_getRoomByEventKey
  | Call_getAllQuizzesByEventKey _ => render imports Q_getAllQuizzesByEventKey
  | Call_updateQuiz _ _ _ =>
      match i with
      | O => render imports Q_updateQuiz_update
      | _ => render imports Q_updateQuiz_select
      end
  | Call_updateQuestion _ _ ca =>
      match i with
      | O =>
          match ca with
          | Some _ => render imports Q_updateQuestion_both
          | None => render imports Q_updateQuestion_label
          end
      | _ => render imports Q_updateQuestion_select
      end
  | Call_getAllRoomsByPresenter _ => render imports Q_getAllRoomsByPresenter
  | Call_getAllAnswersByQuestion _ => render imports Q_getAllAnswersByQuestion
  | Call_getAllAnswersByEventKey _ =>
      match i with
      | O => render imports Q_getAllQuestionsByEventKey
      | S j => if Nat.even j then render imports Q_getAllChoicesByQuestion
               else render imports Q_getAllAnswersByQuestion
      end
  end.

End Harness.

Definition same_presence {A B} (a : option A) (b : option B) : bool :=
  match a, b with
  | Some _, Some _ | None, None => true
  | _, _ => false
  end.

(** Two calls of the same method that agree on whether a correct answer is
    supplied, where the method takes one. *)
Definition same_shape (c1 c2 : call) : bool :=
  match c1, c2 with
  | Call_resetDatabase, Call_resetDatabase
  | Call_getAllFromTable _, Call_getAllFromTable _
  | Call_getAllQuestionsByEventKey _, Call_getAllQuestionsByEventKey _
  | Call_getAllChoicesByQuestion _, Call_getAllChoicesByQuestion _
  | Call_createAnswer _ _ _, Call_createAnswer _ _ _
  | Call_generateUniqueEventKey _, Call_generateUniqueEventKey _
  | Call_createRoom _ _ _, Call_createRoom _ _ _
  | Call_createQuiz _ _ _, Call_createQuiz _ _ _
  | Call_createChoices _ _, Call_createChoices _ _
  | Call_getAllAnswersByQuiz _, Call_getAllAnswersByQuiz _
  | Call_getRoomByEventKey _, Call_getRoomByEventKey _
  | Call_getAllQuizzesByEventKey _, Call_getAllQuizzesByEventKey _
  | Call_updateQuiz _ _ _, Call_updateQuiz _ _ _
  | Call_getAllRoomsByPresenter _, Call_getAllRoomsByPresenter _
  | Call_getAllAnswersByQuestion _, Call_getAllAnswersByQuestion _
  | Call_getAllAnswersByEventKey _, Call_getAllAnswersByEventKey _ => true
  | Call_createQuestionAndChoices _ ca1 _ _,
    Call_createQuestionAndChoices _ ca2 _ _ => same_presence ca1 ca2
  | Call_createQuestion _ ca1 _, Call_createQuestion _ ca2 _ => same_presence ca1 ca2
  | Call_updateQuestion _ _ ca1, Call_updateQuestion _ _ ca2 => same_presence ca1 ca2
  | _, _ => false
  end.

(** The two methods whose query text has a value spliced in. *)
Definition splices (c : call) : bool :=
  match c with
  | Call_getAllFromTable _ | Call_generateUniqueEventKey _ => true
  | _ => false
  end.

(** Two states of the tables that differ at most in AnswerEntry. *)
Definition same_but_answers (db db' : Database) : Prop :=
  Room_t db' = Room_t db /\ Quiz_t db' = Quiz_t db /\
  Question_t db' = Question_t db /\ Choice_t db' = Choice_t db /\
  room_seq db' = room_seq db /\ quiz_seq db' = quiz_seq db /\
  question_seq db' = question_seq db /\ choice_seq db' = choice_seq db.

Definition answer_rows (subs : list Submission) : list AnswerEntry :=
  map (fun s => mkAnswerEntry (sub_question s) (sub_participant s) (sub_label s))
    subs.

(** The Choice rows that inserting [labels] one after the other for
    question [q] adds when the sequence stands at [seq]. *)
Fixpoint choice_rows (seq : Z) (q : Z) (labels : list string) : list Choice :=
  match labels with
  | [] => []
  | l :: rest => mkChoice (nextval seq) l q :: choice_rows (nextval seq) q rest
  end.

(** ** A sample deployment *)

(** What the sample storage does with the text of [getAllFromTable]: it
    hands back the table for the five names as the class spells them and
    refuses any other text.  It only serves to run the examples; the
    examples that call [getAllFromTable] read the text that is sent, not
    this answer, and no property is stated of it. *)
Definition sample_select_from (tableName : string) (db : Database)
    : option (Database * list any_row) :=
  if (tableName =? "Room")%string then Some (db, map ARoom (Room_t db))
  else if (tableName =? "Quiz")%string then Some (db, map AQuiz (Quiz_t db))
  else if (tableName =? "Question")%string
       then Some (db, map AQuestion (Question_t db))
  else if (tableName =? "Choice")%string then Some (db, map AChoice (Choice_t db))
  else if (tableName =? "AnswerEntry")%string
       then Some (db, map AAnswerEntry (AnswerEntry_t db))
  else None.

Definition sample_imports : Imports :=
  mkImports "konzert" "-- schema" "-- data" (fun _ => empty_db) (fun db => db)
    sample_select_from.

(** Two rooms with questions and a third without any; question 2 has
    neither choices nor answers. *)
Definition sample_db : Database :=
  mkDatabase
    [mkRoom 1 "abc123de" "Room1" "p1"; mkRoom 2 "0f8fad5b" "Room2" "p2";
     mkRoom 3 "7c9e6679" "Room3" "p1"]
    [mkQuiz 1 10 "Q1" 1; mkQuiz 2 20 "Q2" 1; mkQuiz 3 5 "Q3" 2]
    [mkQuestion 1 "2+2?" (Some "4") 1; mkQuestion 2 "Why?" None 2;
     mkQuestion 3 "3*3?" (Some "9") 3]
    [mkChoice 1 "3" 1; mkChoice 2 "4" 1; mkChoice 3 "5" 1]
    [mkAnswerEntry 1 "u1" "4"; mkAnswerEntry 3 "u2" "9"; mkAnswerEntry 1 "u1" "4"]
    3 3 3 3.

(** The first two UUIDs lead to keys that are taken, the third to a free
    one. *)
Definition sample_uuids (n : nat) : string :=
  match n with
  | 0%nat => "abc123de-58cc-4372-a567-0e02b2c3d479"
  | 1%nat => "0f8fad5b-d9cb-469f-a165-70867728950e"
  | _ => "3f2504e0-4f89-41d3-9a0c-0305e82c3301"
  end.

Definition sample_world : World := mkWorld sample_db [] sample_uuids 0.

(** Three submissions: a participant answers question 1 twice, then
    question 2. *)
Definition sample_submissions : list Submission :=
  [mkSubmission 1 "u3" "5"; mkSubmission 1 "u3" "5"; mkSubmission 2 "u3" "because"].

(** A session on the sample deployment: a room is opened under a generated
    key, a quiz and a question are added, answers come in (one of them for a
    question that does not exist), labels are corrected, results are read. *)
Definition sample_calls : list call :=
  [Call_generateUniqueEventKey 5;
   Call_createRoom "3f2504e0" "Room4" "p2";
   Call_createQuiz 15 "Q4" 4;
   Call_createQuestionAndChoices "Red or blue?" None 4 (Some ["red"; "blue"]);
   Call_createAnswer 4 "u7" "red";
   Call_createAnswer 99 "u7" "lost";
   Call_updateQuestion 4 "Red or green?" (Some "red");
   Call_updateQuiz 4 20 "Colours";
   Call_getAllAnswersByEventKey "3f2504e0"].

(** The statements whose text the class does not write itself: the two
    imported scripts and the SELECT of [getAllFromTable], which runs
    whatever text the caller passed. *)
Definition foreign_text {R} (s : stmt R) : bool :=
  match s with
  | Q_resetDatabase_schema | Q_resetDatabase_data | Q_getAllFromTable _ => true
  | _ => false
  end.

(** The two methods that send such a statement. *)
Definition sends_foreign_text (c : call) : bool :=
  match c with
  | Call_resetDatabase | Call_getAllFromTable _ => true
  | _ => false
  end.

(** ** Vocabulary of the further properties *)

(** No two rooms share their event key. *)
Definition keys_unique (db : Database) : Prop := NoDup (existing_keys db).

(** A quiz belongs to a room with event key [k]. *)
Definition quiz_in_room (k : string) (db : Database) (q : Quiz) : bool :=
  existsb (fun r => (room_id r =? qz_room_id q) && (event_key r =? k)%string)
    (Room_t db).

(** An answer was given to a question of the quiz. *)
Definition answer_in_quiz (quiz : Z) (db : Database) (a : AnswerEntry) : bool :=
  existsb (fun q => (qn_quiz_id q =? quiz) && (question_id q =? a_question_id a))
    (Question_t db).

(** [l'] is [l] with rows added at the end. *)
Definition extends {A} (l l' : list A) : Prop := exists t, l' = l ++ t.

(** From [db] to [db'] nothing was deleted: rooms, choices and answers, the
    tables no statement updates, are the old rows followed by new ones; every
    quiz and every question that was there is still there under its id and
    its parent (as often as before, wherever it stands), and the sequences
    did not go back. *)
Definition grows (db db' : Database) : Prop :=
  extends (Room_t db) (Room_t db') /\
  extends (Choice_t db) (Choice_t db') /\
  extends (AnswerEntry_t db) (AnswerEntry_t db') /\
  (exists added,
     Permutation (map (fun z => (quiz_id z, qz_room_id z)) (Quiz_t db'))
       (map (fun z => (quiz_id z, qz_room_id z)) (Quiz_t db) ++ added)) /\
  (exists added,
     Permutation (map (fun q => (question_id q, qn_quiz_id q)) (Question_t db'))
       (map (fun q => (question_id q, qn_quiz_id q)) (Question_t db) ++ added)) /\
  room_seq db <= room_seq db' /\ quiz_seq db <= quiz_seq db' /\
  question_seq db <= question_seq db' /\ choice_seq db <= choice_seq db'.

(** The methods that only send SELECT statements written in the class (not
    [getAllFromTable], whose text is the caller's). *)
Definition read_only (c : call) : bool :=
  match c with
  | Call_getAllQuestionsByEventKey _
  | Call_getAllChoicesByQuestion _
  | Call_generateUniqueEventKey _
  | Call_getAllAnswersByQuiz _
  | Call_getRoomByEventKey _
  | Call_getAllQuizzesByEventKey _
  | Call_getAllRoomsByPresenter _
  | Call_getAllAnswersByQuestion _
  | Call_getAllAnswersByEventKey _ => true
  | _ => false
  end.

(** The statements that are a SELECT written in the class. *)
Definition is_select {R} (s : stmt R) : bool :=
  match s with
  | Q_getAllQuestionsByEventKey
  | Q_getAllChoicesByQuestion
  | Q_generateUniqueEventKey _
  | Q_createRoom_select
  | Q_createQuiz_select
  | Q_createQuestion_select
  | Q_getAllAnswersByQuiz
  | Q_getRoomByEventKey
  | Q_getAllQuizzesByEventKey
  | Q_updateQuiz_select
  | Q_updateQuestion_select
  | Q_getAllRoomsByPresenter
  | Q_getAllAnswersByQuestion => true
  | _ => false
  end.

(** A bundle with the label replaced when it is the bundle of [qid]. *)
Definition relabel (qid : Z) (l : string) (b : Bundle) : Bundle :=
  if questionId b =? qid then mkBundle (questionId b) l (choices b) (answers b)
  else b.

(** The correct answer two updates in a row amount to. *)
Definition merged_answer (ca1 ca2 : option string) : option string :=
  match ca2 with
  | Some c => Some c
  | None => ca1
  end.

(** The labels [createQuestionAndChoices] was given, if any. *)
Definition labels_given (choiceLabels : option (list string)) : list string :=
  match choiceLabels with
  | Some labels => labels
  | None => []
  end.

(** A run of calls one after the other; a call that fails leaves the world
    it reached and the next call goes on from there. *)
Fixpoint perform_all (imports : Imports) (cs : list call) (w : World) : World :=
  match cs with
  | [] => w
  | c :: rest => perform_all imports rest (after (perform imports c w))
  end.

(** The statements whose text is written in the class. *)
Definition own_text {R} (s : stmt R) : bool := negb (foreign_text s).

#[local] Arguments render : simpl never.

(** * Properties *)

(** ** Lists and strings *)

Section ListFacts.
Context {A : Type}.

Lemma push_each_app (src arr : list A) : push_each src arr = arr ++ src.
Proof.
  revert arr; induction src as [|x src IH]; intros arr; cbn.
  - now rewrite app_nil_r.
  - unfold push_each in IH. rewrite IH, <- app_assoc. reflexivity.
Qed.

Lemma push_each_nil (src : list A) : push_each src [] = src.
Proof. apply push_each_app. Qed.

Lemma flat_map_filter {B} (p : A -> bool) (f : A -> list B) (l : list A) :
  (forall x, p x = false -> f x = []) ->
  flat_map f l = flat_map f (filter p l).
Proof.
  intros Hp; induction l as [|x l IH]; cbn; [reflexivity|].
  destruct (p x) eqn:E; cbn; rewrite IH; [reflexivity|].
  now rewrite (Hp x E).
Qed.

Lemma existsb_filter (p q : A -> bool) (l : list A) :
  (forall x, p x = false -> q x = false) ->
  existsb q l = existsb q (filter p l).
Proof.
  intros Hp; induction l as [|x l IH]; cbn; [reflexivity|].
  destruct (p x) eqn:E; cbn; rewrite IH; [reflexivity|].
  now rewrite (Hp x E).
Qed.

(** Under a key constraint at most one row has a given key. *)
Lemma filter_key_unique (key : A -> Z) (a : Z) (l : list A) :
  NoDup (map key l) ->
  filter (fun x => key x =? a) l = [] \/
  exists x, filter (fun x => key x =? a) l = [x] /\ key x = a.
Proof.
  induction l as [|x l IH]; cbn; intros ND; [now left|].
  inversion ND as [|? ? Hnotin ND']; subst.
  destruct (Z.eqb_spec (key x) a) as [E|E].
  - right. exists x. split; [|assumption]. f_equal.
    destruct (IH ND') as [H0|[y [Hy Ey]]]; [assumption|].
    exfalso. apply Hnotin. rewrite E, <- Ey. apply in_map.
    assert (In y (filter (fun x0 => key x0 =? a) l)) as Hin by (rewrite Hy; now left).
    apply filter_In in Hin. tauto.
  - auto.
Qed.

End ListFacts.

(** ** ORDER BY *)

Section OrderBy.
Context {A : Type}.
Variable key : A -> Z.

Let le_key (a b : A) : Prop := key a <= key b.

Lemma insert_by_perm (x : A) (l : list A) :
  Permutation (insert_by key x l) (x :: l).
Proof.
  induction l as [|y l IH]; cbn; [reflexivity|].
  destruct (key x <=? key y); [reflexivity|].
  rewrite IH. apply perm_swap.
Qed.

Lemma order_by_perm (l : list A) : Permutation (order_by key l) l.
Proof.
  induction l as [|x l IH]; cbn; [reflexivity|].
  rewrite insert_by_perm. now constructor.
Qed.

Lemma insert_by_sorted (x : A) (l : list A) :
  StronglySorted le_key l -> StronglySorted le_key (insert_by key x l).
Proof.
  induction 1 as [|y l Hs IH Hy]; cbn.
  - repeat constructor.
  - destruct (Z.leb_spec (key x) (key y)) as [Hle|Hgt].
    + constructor; [now constructor|].
      constructor; [exact Hle|].
      eapply Forall_impl; [|exact Hy]. unfold le_key. intros; lia.
    + constructor; [exact IH|].
      eapply Permutation_Forall; [symmetry; apply insert_by_perm|].
      constructor; [unfold le_key; lia|exact Hy].
Qed.

Lemma order_by_sorted (l : list A) : StronglySorted le_key (order_by key l).
Proof.
  induction l as [|x l IH]; cbn; [constructor|now apply insert_by_sorted].
Qed.

Lemma order_by_desc_snoc_max (l : list A) (x : A) :
  Forall (fun y => key y < key x) l ->
  order_by_desc key (l ++ [x]) = x :: order_by_desc key l.
Proof.
  unfold order_by_desc.
  induction 1 as [|y l Hy _ IH]; cbn; [reflexivity|].
  rewrite IH. cbn.
  destruct (Z.leb_spec (- key y) (- key x)); [lia|reflexivity].
Qed.

End OrderBy.

(** ** The sequences and the primary keys *)

Lemma NoDup_snoc_fresh (l : list Z) (s : Z) :
  NoDup l -> Forall (fun i => i <= s) l -> NoDup (l ++ [nextval s]).
Proof.
  intros ND F. apply NoDup_app; [assumption|repeat constructor; intros []|].
  intros i Hi [<-|[]]. rewrite Forall_forall in F. specialize (F _ Hi).
  unfold nextval in F. lia.
Qed.

Lemma Forall_snoc_fresh {A} (key : A -> Z) (l : list A) (x : A) (s : Z) :
  Forall (fun r => key r <= s) l -> key x = nextval s ->
  Forall (fun r => key r <= nextval s) (l ++ [x]).
Proof.
  intros F E. apply Forall_app. split.
  - eapply Forall_impl; [|exact F]. unfold nextval. intros; cbn in *; lia.
  - repeat constructor. lia.
Qed.

Lemma update_where_keys {A} (key : A -> Z) (p : A -> bool) (f : A -> A) (l : list A) :
  (forall x, key (f x) = key x) ->
  map key (update_where p f l) = map key l.
Proof.
  intros Hf. unfold update_where. rewrite map_map. apply map_ext.
  intros x. destruct (p x); [apply Hf|reflexivity].
Qed.

Lemma update_where_Forall {A} (key : A -> Z) (s : Z) (p : A -> bool) (f : A -> A)
    (l : list A) :
  (forall x, key (f x) = key x) ->
  Forall (fun r => key r <= s) l ->
  Forall (fun r => key r <= s) (update_where p f l).
Proof.
  intros Hf F. unfold update_where. apply Forall_map.
  eapply Forall_impl; [|exact F]. cbn. intros x Hx.
  destruct (p x); [rewrite Hf|]; exact Hx.
Qed.

Lemma empty_db_consistent : consistent empty_db.
Proof. repeat split; cbn; constructor. Qed.

Section ServiceFacts.

Variable imports : Imports.

(** Every statement whose text is written in the class keeps the tables
    consistent. *)
Lemma exec_consistent {R} (s : stmt R) (vs : list value) (db db' : Database)
    (r : QueryResult R) :
  foreign_text s = false ->
  consistent db -> exec imports s vs db = Some (db', r) -> consistent db'.
Proof.
  intros Hs [(PK1 & PK2 & PK3 & PK4) (SA1 & SA2 & SA3 & SA4)] E.
  destruct s; try discriminate Hs; cbn in E;
    repeat match type of E with
    | match ?v with _ => _ end = _ => destruct v; try discriminate E
    | (if ?b then _ else _) = _ => destruct b; try discriminate E
    end;
    injection E as <- _;
    unfold consistent, primary_keys, sequences_ahead; cbn;
    repeat split; try assumption;
    rewrite ?map_app; cbn;
    try (apply NoDup_snoc_fresh; [assumption|now apply Forall_map]);
    try (apply Forall_snoc_fresh; [assumption|reflexivity]);
    try (rewrite update_where_keys; [assumption|reflexivity]);
    try (apply update_where_Forall; [reflexivity|assumption]).
Qed.

Lemma preserves_ret {A} (P : Database -> Prop) (a : A) : preserves P (ret a).
Proof. intros w Hw. exact Hw. Qed.

Lemma preserves_throw {A} (P : Database -> Prop) (e : error) :
  preserves P (@throw A e).
Proof. intros w Hw. exact Hw. Qed.

Lemma preserves_uuidv4 (P : Database -> Prop) : preserves P uuidv4.
Proof. intros w Hw. exact Hw. Qed.

Lemma preserves_bind {A B} (P : Database -> Prop) (m : M A) (k : A -> M B) :
  preserves P m -> (forall a, preserves P (k a)) -> preserves P (bind m k).
Proof.
  intros Hm Hk w Hw. specialize (Hm w Hw). unfold bind.
  destruct (m w) as [a w'|e w']; cbn in Hm |- *; [now apply Hk|exact Hm].
Qed.

Lemma preserves_pool_query {R} (s : stmt R) (vs : list value) :
  foreign_text s = false -> preserves consistent (pool_query imports s vs).
Proof.
  intros Hs w Hw. unfold pool_query.
  destruct (exec imports s vs (store w)) as [[db' r]|] eqn:E; cbn; [|exact Hw].
  exact (exec_consistent s vs (store w) db' r Hs Hw E).
Qed.

Ltac preserve :=
  repeat first
    [ apply preserves_ret
    | apply preserves_throw
    | apply preserves_uuidv4
    | apply preserves_pool_query; reflexivity
    | apply preserves_bind; [|intros ?]
    | match goal with
      | |- preserves _ (match ?x with _ => _ end) => destruct x
      end
    | assumption ].

Lemma generateUniqueEventKey_preserves (fuel : nat) :
  preserves consistent (generateUniqueEventKey imports fuel).
Proof. induction fuel as [|fuel IH]; cbn [generateUniqueEventKey]; preserve. Qed.

Lemma createChoices_preserves (q : Z) (labels : list string) :
  preserves consistent (createChoices imports q labels).
Proof. induction labels as [|l labels IH]; cbn [createChoices]; preserve. Qed.

Lemma getAllAnswersByEventKey_loop_preserves (qs : list Iface.Question) :
  forall acc, preserves consistent (getAllAnswersByEventKey_loop imports qs acc).
Proof.
  induction qs as [|q qs IH]; intros acc; cbn [getAllAnswersByEventKey_loop];
    unfold getAllChoicesByQuestion, getAllAnswersByQuestion; preserve.
  apply IH.
Qed.

(** Every method but [resetDatabase] and [getAllFromTable] keeps the tables
    consistent: primary keys stay unique and the sequences stay ahead of the
    ids in use, on every state that these methods reach from the empty
    tables. *)
Lemma perform_preserves (c : call) :
  sends_foreign_text c = false -> preserves consistent (perform imports c).
Proof.
  intros Hc. destruct c; try discriminate Hc; cbn [perform]; unfold ignore;
    try apply createChoices_preserves;
    (apply preserves_bind; [|intros ?; apply preserves_ret]);
    try apply generateUniqueEventKey_preserves;
    unfold getAllFromTable, getAllQuestionsByEventKey, getAllChoicesByQuestion,
      createAnswer, createRoom, createQuiz, createQuestionAndChoices,
      createQuestion, getAllAnswersByQuiz, getRoomByEventKey,
      getAllQuizzesByEventKey, updateQuiz, updateQuestion, getAllRoomsByPresenter,
      getAllAnswersByQuestion, getAllAnswersByEventKey;
    preserve;
    try apply createChoices_preserves;
    try apply getAllAnswersByEventKey_loop_preserves.
Qed.

End ServiceFacts.

(** ** Aggregation *)

Lemma flat_map_nil {A B} (f : A -> list B) (l : list A) :
  (forall x, f x = []) -> flat_map f l = [].
Proof.
  intros Hf; induction l as [|x l IH]; cbn; [reflexivity|].
  now rewrite Hf, IH.
Qed.

(** With primary keys on Room and Quiz, the three-table join yields each
    question of the room once. *)
Lemma join_in_room (k : string) (db : Database) :
  NoDup (map room_id (Room_t db)) ->
  NoDup (map quiz_id (Quiz_t db)) ->
  join_Question_Quiz_Room k db = filter (in_room k db) (Question_t db).
Proof.
  intros NDr NDz. unfold join_Question_Quiz_Room.
  induction (Question_t db) as [|qn qs IH]; cbn; [reflexivity|].
  rewrite IH. clear IH.
  assert (flat_map (fun qz => flat_map (fun r =>
            if (event_key r =? k)%string && (room_id r =? qz_room_id qz)
               && (qn_quiz_id qn =? quiz_id qz)
            then [qn] else []) (Room_t db)) (Quiz_t db)
          = if in_room k db qn then [qn] else []) as ->;
    [|destruct (in_room k db qn); reflexivity].
  unfold in_room.
  rewrite (flat_map_filter (fun qz => quiz_id qz =? qn_quiz_id qn)),
          (existsb_filter (fun qz => quiz_id qz =? qn_quiz_id qn)).
  2: { intros z Hz. now rewrite Hz. }
  2: { intros z Hz. apply flat_map_nil. intros r.
       rewrite (Z.eqb_sym (qn_quiz_id qn)), Hz, andb_false_r. reflexivity. }
  destruct (filter_key_unique quiz_id (qn_quiz_id qn) (Quiz_t db) NDz)
    as [->|[z [-> Ez]]]; cbn; [reflexivity|].
  rewrite app_nil_r, orb_false_r, Ez, Z.eqb_refl. cbn.
  rewrite (flat_map_filter (fun r => room_id r =? qz_room_id z)),
          (existsb_filter (fun r => room_id r =? qz_room_id z)).
  2: { intros r Hr. now rewrite Hr. }
  2: { intros r Hr. now rewrite Hr, andb_false_r. }
  destruct (filter_key_unique room_id (qz_room_id z) (Room_t db) NDr)
    as [->|[r [-> Er]]]; cbn; [reflexivity|].
  rewrite Er, Z.eqb_refl, andb_true_r, orb_false_r. cbn.
  destruct (event_key r =? k)%string; reflexivity.
Qed.

(** Even without keys, the join holds a question exactly when the question
    is in the room. *)
Lemma join_In (k : string) (db : Database) (qn : Question) :
  In qn (join_Question_Quiz_Room k db) <->
  In qn (Question_t db) /\ in_room k db qn = true.
Proof.
  unfold join_Question_Quiz_Room, in_room.
  rewrite in_flat_map, existsb_exists. split.
  - intros (q & Hq & H). apply in_flat_map in H as (z & Hz & H).
    apply in_flat_map in H as (r & Hr & H).
    destruct (event_key r =? k)%string eqn:E1; [|destruct H].
    destruct (room_id r =? qz_room_id z) eqn:E2; [|destruct H].
    destruct (qn_quiz_id q =? quiz_id z) eqn:E3; [|destruct H].
    destruct H as [<-|[]].
    split; [assumption|]. exists z. split; [assumption|].
    rewrite Z.eqb_sym, E3. cbn. apply existsb_exists. exists r.
    now rewrite E2, E1.
  - intros (Hq & z & Hz & H). apply andb_true_iff in H as [E3 H].
    apply existsb_exists in H as (r & Hr & H).
    apply andb_true_iff in H as [E2 E1].
    exists qn. split; [assumption|]. apply in_flat_map. exists z.
    split; [assumption|]. apply in_flat_map. exists r. split; [assumption|].
    rewrite E1, E2, Z.eqb_sym, E3. now left.
Qed.

Section AggregationFacts.

Variable imports : Imports.

Lemma choice_array (l : list Choice) :
  (if (0 <? rowCount (selected l))%nat
   then push_each (map choice_label (rows (selected l))) []
   else []) = map choice_label l.
Proof.
  unfold selected; cbn [rowCount rows].
  destruct l as [|c l]; [reflexivity|]. apply push_each_nil.
Qed.

Lemma getAllAnswersByEventKey_loop_spec (qs : list Question) (acc : list Bundle)
    (w : World) :
  getAllAnswersByEventKey_loop imports (map question_of_row qs) acc w =
  Ok (acc ++ map (bundle_of (store w)) qs)
     (mkWorld (store w)
        (sent w ++ flat_map (fun q => probes imports (question_id q)) qs)
        (uuids w) (drawn w)).
Proof.
  revert acc w; induction qs as [|q qs IH]; intros acc w.
  - cbn. unfold ret. rewrite !app_nil_r. now destruct w.
  - cbn [map getAllAnswersByEventKey_loop].
    unfold bind at 1, getAllChoicesByQuestion, pool_query. cbn [exec].
    unfold bind at 1, getAllAnswersByQuestion, pool_query. cbn [exec store].
    rewrite choice_array, push_each_nil, IH. cbn.
    rewrite <- !app_assoc. reflexivity.
Qed.

Lemma getAllAnswersByEventKey_spec (k : string) (w : World) :
  getAllAnswersByEventKey imports k w =
  Ok (map (bundle_of (store w))
        (order_by question_id (join_Question_Quiz_Room k (store w))))
     (mkWorld (store w)
        (sent w ++
         mkSent (render imports Q_getAllQuestionsByEventKey) [VText k] ::
         flat_map (fun q => probes imports (question_id q))
           (order_by question_id (join_Question_Quiz_Room k (store w))))
        (uuids w) (drawn w)).
Proof.
  unfold getAllAnswersByEventKey, bind, getAllQuestionsByEventKey, pool_query.
  cbn [exec rows selected]. rewrite getAllAnswersByEventKey_loop_spec. cbn.
  rewrite <- app_assoc. reflexivity.
Qed.

End AggregationFacts.

(** ** Claims on the aggregation routine *)

Section AggregationClaims.

Variable imports : Imports.

Lemma in_room_bundle (k : string) (w : World) (qn : Question) :
  In qn (Question_t (store w)) -> in_room k (store w) qn = true ->
  In qn (order_by question_id (join_Question_Quiz_Room k (store w))).
Proof.
  intros Hq Hr. eapply Permutation_in; [symmetry; apply order_by_perm|].
  apply join_In. now split.
Qed.

(** C1: for every event key, [getAllAnswersByEventKey] returns one bundle per
    question of the room with that key (across all its quizzes), in
    ascending order of question id; the bundle of a question holds its
    label, the labels of its Choice rows and the labels of its AnswerEntry
    rows.  The tables are read under their primary keys on Room and Quiz,
    and are left as they were. *)
Theorem getAllAnswersByEventKey_one_bundle_per_question
    (w : World) (eventKey : string) :
  NoDup (map room_id (Room_t (store w))) ->
  NoDup (map quiz_id (Quiz_t (store w))) ->
  exists (qs : list Question) (w' : World),
    getAllAnswersByEventKey imports eventKey w
      = Ok (map (bundle_of (store w)) qs) w' /\
    store w' = store w /\
    Permutation qs (filter (in_room eventKey (store w)) (Question_t (store w))) /\
    StronglySorted (fun a b => question_id a <= question_id b) qs.
Proof.
  intros NDr NDz.
  exists (order_by question_id (join_Question_Quiz_Room eventKey (store w))).
  eexists. split; [apply getAllAnswersByEventKey_spec|].
  split; [reflexivity|]. split.
  - rewrite <- (join_in_room eventKey (store w) NDr NDz). apply order_by_perm.
  - apply order_by_sorted.
Qed.

Lemma labels_for_rows (q : Z) (subs : list Submission) :
  map answer_label (filter (fun a => a_question_id a =? q) (answer_rows subs))
  = labels_for q subs.
Proof.
  unfold labels_for, answer_rows.
  induction subs as [|s subs IH]; cbn; [reflexivity|].
  destruct (sub_question s =? q); cbn; now rewrite IH.
Qed.

Lemma createAnswer_spec (q : Z) (p l : string) (w : World) :
  createAnswer imports q p l w =
  Ok (affected 1)
     (mkWorld (insert_AnswerEntry q p l (store w))
        (sent w ++ [mkSent (render imports Q_createAnswer)
                      [VInt q; VText p; VText l]])
        (uuids w) (drawn w)).
Proof. reflexivity. Qed.

Lemma submit_all_spec (subs : list Submission) (w : World) :
  exists w1,
    submit_all imports subs w = Ok tt w1 /\
    AnswerEntry_t (store w1) = AnswerEntry_t (store w) ++ answer_rows subs /\
    same_but_answers (store w) (store w1).
Proof.
  revert w; induction subs as [|s subs IH]; intros w.
  - exists w. cbn. rewrite app_nil_r. repeat split; reflexivity.
  - cbn [submit_all]. unfold bind. rewrite createAnswer_spec.
    destruct (IH (mkWorld (insert_AnswerEntry (sub_question s)
                             (sub_participant s) (sub_label s) (store w))
                    (sent w ++ [mkSent (render imports Q_createAnswer)
                       [VInt (sub_question s); VText (sub_participant s);
                        VText (sub_label s)]])
                    (uuids w) (drawn w)))
      as (w1 & Hrun & Hans & Hsame).
    exists w1. split; [exact Hrun|]. split.
    + rewrite Hans. cbn. rewrite <- app_assoc. reflexivity.
    + exact Hsame.
Qed.

Lemma in_room_same (k : string) (db db' : Database) (qn : Question) :
  same_but_answers db db' -> in_room k db' qn = in_room k db qn.
Proof.
  intros (Hr & Hz & _). unfold in_room. now rewrite Hr, Hz.
Qed.

Lemma answers_after (w w1 : World) (subs : list Submission) (q : Z) :
  AnswerEntry_t (store w1) = AnswerEntry_t (store w) ++ answer_rows subs ->
  answer_labels_of (store w1) q
  = answer_labels_of (store w) q ++ labels_for q subs.
Proof.
  intros H. unfold answer_labels_of.
  now rewrite H, filter_app, map_app, labels_for_rows.
Qed.

(** C2: the bundle of a question holds exactly one label per AnswerEntry row
    of the question, in table order; and after any run of submissions
    (duplicates included) the bundle holds the labels it held before
    followed by the labels submitted for the question, in the order of
    submission. *)
Theorem aggregation_returns_every_answer_in_order
    (w : World) (subs : list Submission) (eventKey : string) :
  exists (w1 : World) (bundles : list Bundle) (w2 : World),
    submit_all imports subs w = Ok tt w1 /\
    getAllAnswersByEventKey imports eventKey w1 = Ok bundles w2 /\
    Forall (fun b =>
      answers b = answer_labels_of (store w1) (questionId b) /\
      answers b = answer_labels_of (store w) (questionId b)
                  ++ labels_for (questionId b) subs /\
      List.length (answers b)
        = Nat.add
            (List.length (filter (fun a => a_question_id a =? questionId b)
                            (AnswerEntry_t (store w))))
            (List.length (filter (fun s => sub_question s =? questionId b) subs)))
      bundles /\
    (forall qn, In qn (Question_t (store w)) ->
       in_room eventKey (store w) qn = true ->
       exists b, In b bundles /\ questionId b = question_id qn).
Proof.
  destruct (submit_all_spec subs w) as (w1 & Hrun & Hans & Hsame).
  exists w1. eexists. eexists. split; [exact Hrun|].
  split; [apply getAllAnswersByEventKey_spec|]. split.
  - apply Forall_map, Forall_forall. intros qn _. cbn.
    split; [reflexivity|].
    rewrite (answers_after w w1 subs _ Hans). split; [reflexivity|].
    unfold answer_labels_of, labels_for. now rewrite length_app, !length_map.
  - intros qn Hq Hr. exists (bundle_of (store w1) qn). split; [|reflexivity].
    apply in_map, in_room_bundle.
    + destruct Hsame as (_ & _ & -> & _). exact Hq.
    + now rewrite (in_room_same _ _ _ _ Hsame).
Qed.

Lemma no_member_nil {A} (l : list A) : (forall x, ~ In x l) -> l = [].
Proof.
  destruct l as [|x l]; [reflexivity|]. intros H. destruct (H x). now left.
Qed.

Lemma in_room_key (k : string) (db : Database) (qn : Question) :
  in_room k db qn = true -> In k (existing_keys db).
Proof.
  unfold in_room, existing_keys. intros H.
  apply existsb_exists in H as (z & _ & H). apply andb_true_iff in H as [_ H].
  apply existsb_exists in H as (r & Hr & H). apply andb_true_iff in H as [_ H].
  apply String.eqb_eq in H. subst k. now apply in_map.
Qed.

(** C3: the aggregation never fails and never drops a question: a question
    of the room without Choice rows and without AnswerEntry rows has its
    bundle, with both lists empty; a room without questions gives the empty
    sequence; and so does an event key that no room has. *)
Theorem aggregation_empty_cases (w : World) (eventKey : string) :
  exists (bundles : list Bundle) (w' : World),
    getAllAnswersByEventKey imports eventKey w = Ok bundles w' /\
    (forall qn, In qn (Question_t (store w)) ->
       in_room eventKey (store w) qn = true ->
       filter (fun c => c_question_id c =? question_id qn) (Choice_t (store w)) = [] ->
       filter (fun a => a_question_id a =? question_id qn)
         (AnswerEntry_t (store w)) = [] ->
       In (mkBundle (question_id qn) (question_label qn) [] []) bundles) /\
    (filter (in_room eventKey (store w)) (Question_t (store w)) = [] ->
       bundles = []) /\
    (~ In eventKey (existing_keys (store w)) -> bundles = []).
Proof.
  eexists. eexists. split; [apply getAllAnswersByEventKey_spec|].
  assert (filter (in_room eventKey (store w)) (Question_t (store w)) = [] ->
          map (bundle_of (store w))
            (order_by question_id (join_Question_Quiz_Room eventKey (store w)))
          = []) as Hempty.
  { intros Hnone.
    rewrite (no_member_nil (join_Question_Quiz_Room eventKey (store w)));
      [reflexivity|].
    intros qn Hin. apply join_In in Hin.
    assert (In qn (filter (in_room eventKey (store w)) (Question_t (store w))))
      as Hf by now apply filter_In.
    rewrite Hnone in Hf. exact Hf. }
  split; [|split].
  - intros qn Hq Hr Hc Ha.
    apply (in_map (bundle_of (store w))) in Hq as Hb.
    assert (bundle_of (store w) qn
            = mkBundle (question_id qn) (question_label qn) [] []) as <-.
    { unfold bundle_of, choice_labels_of, answer_labels_of. now rewrite Hc, Ha. }
    apply in_map. now apply in_room_bundle.
  - exact Hempty.
  - intros Hkey. apply Hempty. apply no_member_nil. intros qn Hin.
    apply filter_In in Hin as [_ Hr]. apply Hkey. eapply in_room_key; eassumption.
Qed.

Lemma sent_since_app (w : World) (l : list Sent) (db : Database)
    (u : nat -> string) (d : nat) :
  sent_since w (mkWorld db (sent w ++ l) u d) = l.
Proof.
  unfold sent_since. cbn. induction (sent w) as [|x xs IH]; cbn; auto.
Qed.

Lemma labels_for_repeat (q : Z) (p l : string) (n : nat) :
  labels_for q (repeat (mkSubmission q p l) n) = repeat l n.
Proof.
  unfold labels_for. induction n as [|n IH]; cbn; [reflexivity|].
  rewrite Z.eqb_refl. cbn. now rewrite IH.
Qed.

(** C7: [createAnswer] sends the one INSERT and the row is appended, whatever
    the question id, the participant and the label are and whatever the
    tables hold: nothing is looked up first.  Submitting the same answer [n]
    times leaves [n] rows, and they are counted in the aggregation: for a
    question of the room with that id the aggregation has its bundle, whose
    answers are the ones from before followed by the label [n] times, and no
    bundle of that id holds anything else. *)
Theorem createAnswer_unconditional
    (w : World) (q : Z) (participantId answerLabel : string) :
  (exists w' : World,
     createAnswer imports q participantId answerLabel w = Ok (affected 1) w' /\
     AnswerEntry_t (store w')
       = AnswerEntry_t (store w) ++ [mkAnswerEntry q participantId answerLabel] /\
     same_but_answers (store w) (store w') /\
     sent_since w w'
       = [mkSent (render imports Q_createAnswer)
            [VInt q; VText participantId; VText answerLabel]]) /\
  (forall (n : nat) (eventKey : string),
     exists (w1 : World) (bundles : list Bundle) (w2 : World),
       submit_all imports (repeat (mkSubmission q participantId answerLabel) n) w
         = Ok tt w1 /\
       AnswerEntry_t (store w1)
         = AnswerEntry_t (store w)
           ++ repeat (mkAnswerEntry q participantId answerLabel) n /\
       getAllAnswersByEventKey imports eventKey w1 = Ok bundles w2 /\
       Forall (fun b => questionId b = q ->
                 answers b = answer_labels_of (store w) q ++ repeat answerLabel n)
         bundles /\
       (forall qn : Question,
          In qn (Question_t (store w)) ->
          in_room eventKey (store w) qn = true ->
          question_id qn = q ->
          In (mkBundle q (question_label qn) (choice_labels_of (store w) q)
                (answer_labels_of (store w) q ++ repeat answerLabel n))
             bundles)).
Proof.
  split.
  - eexists. split; [apply createAnswer_spec|]. cbn [store].
    split; [reflexivity|]. split; [repeat split|]. apply sent_since_app.
  - intros n eventKey.
    destruct (submit_all_spec (repeat (mkSubmission q participantId answerLabel) n) w)
      as (w1 & Hrun & Hans & Hsame).
    exists w1. eexists. eexists. split; [exact Hrun|]. split.
    { rewrite Hans. unfold answer_rows. now rewrite map_repeat. }
    split; [apply getAllAnswersByEventKey_spec|]. split.
    + apply Forall_map, Forall_forall. intros qn _ Hid. cbn in Hid |- *.
      rewrite (answers_after w w1 _ _ Hans), Hid. now rewrite labels_for_repeat.
    + intros qn Hq Hr Hid.
      assert (bundle_of (store w1) qn
              = mkBundle q (question_label qn) (choice_labels_of (store w) q)
                  (answer_labels_of (store w) q ++ repeat answerLabel n)) as <-.
      { unfold bundle_of. rewrite Hid, (answers_after w w1 _ _ Hans),
          labels_for_repeat.
        f_equal. unfold choice_labels_of.
        destruct Hsame as (_ & _ & _ & -> & _). reflexivity. }
      apply in_map, in_room_bundle.
      * destruct Hsame as (_ & _ & -> & _). exact Hq.
      * now rewrite (in_room_same _ _ _ _ Hsame).
Qed.

End AggregationClaims.

(** ** The event-key generator *)

Lemma slice0_length (n : nat) (s : string) :
  (n <= String.length s)%nat -> String.length (slice0 n s) = n.
Proof.
  unfold slice0. revert s; induction n as [|n IH]; intros s Hn.
  - destruct s; reflexivity.
  - destruct s as [|c s]; cbn in Hn |- *; [lia|].
    rewrite IH; [reflexivity|lia].
Qed.

Lemma slice0_forallb (p : ascii -> bool) (n : nat) (s : string) :
  forallb p (list_ascii_of_string s) = true ->
  forallb p (list_ascii_of_string (slice0 n s)) = true.
Proof.
  unfold slice0. revert s; induction n as [|n IH]; intros s Hs.
  - destruct s; reflexivity.
  - destruct s as [|c s]; cbn in Hs |- *; [reflexivity|].
    apply andb_true_iff in Hs as [Hc Hs]. now rewrite Hc, IH.
Qed.

Lemma uuid_chars_no_quote (l : list ascii) :
  forallb uuid_char l = true -> existsb (Ascii.eqb "'"%char) l = false.
Proof.
  induction l as [|c l IH]; cbn [forallb existsb]; [reflexivity|].
  intros H. apply andb_true_iff in H as [Hc Hl]. rewrite (IH Hl), orb_false_r.
  destruct (Ascii.eqb_spec "'"%char c) as [<-|]; [discriminate Hc|reflexivity].
Qed.

Lemma uuid_key (u : string) :
  is_uuid u = true ->
  String.length (slice0 8 u) = 8%nat /\ has_quote (slice0 8 u) = false.
Proof.
  unfold is_uuid, has_quote. intros H. apply andb_true_iff in H as [Hlen Hch].
  apply Nat.eqb_eq in Hlen. split.
  - apply slice0_length. lia.
  - apply uuid_chars_no_quote, slice0_forallb, Hch.
Qed.

Lemma key_taken_rowCount (db : Database) (k : string) :
  (0 <? rowCount (selected (map event_key
           (filter (fun r => (event_key r =? k)%string) (Room_t db)))))%nat
  = key_taken db k.
Proof.
  unfold key_taken, existing_keys, selected. cbn [rowCount].
  induction (Room_t db) as [|r l IH]; cbn; [reflexivity|].
  destruct (event_key r =? k)%string; cbn; [reflexivity|exact IH].
Qed.

Lemma key_taken_false (db : Database) (k : string) :
  key_taken db k = false -> ~ In k (existing_keys db).
Proof.
  unfold key_taken. intros H Hin.
  assert (existsb (fun k' => (k' =? k)%string) (existing_keys db) = true) as E.
  { apply existsb_exists. exists k. split; [exact Hin|apply String.eqb_refl]. }
  congruence.
Qed.

Section GeneratorClaims.

Variable imports : Imports.

Lemma generateUniqueEventKey_step (fuel : nat) (w : World) :
  is_uuid (uuids w (drawn w)) = true ->
  generateUniqueEventKey imports (S fuel) w =
  if key_taken (store w) (candidate w 0)
  then generateUniqueEventKey imports fuel (checked imports w)
  else Ok (candidate w 0) (checked imports w).
Proof.
  intros Hu. destruct (uuid_key _ Hu) as [_ Hq].
  cbn [generateUniqueEventKey]. unfold bind at 1, uuidv4.
  unfold bind at 1, pool_query. cbn [exec store sent uuids drawn].
  assert (candidate w 0 = slice0 8 (uuids w (drawn w))) as Hc
    by (unfold candidate; now rewrite Nat.add_0_r).
  unfold checked. rewrite Hc, Hq, key_taken_rowCount.
  destruct (key_taken (store w) (slice0 8 (uuids w (drawn w)))); reflexivity.
Qed.

Lemma candidate_checked (w : World) (i : nat) :
  candidate (checked imports w) i = candidate w (S i).
Proof. unfold candidate, checked. cbn. now rewrite Nat.add_succ_r. Qed.

Lemma generateUniqueEventKey_returns (fuel : nat) : forall (w : World) k w',
  (forall i, is_uuid (uuids w i) = true) ->
  generateUniqueEventKey imports fuel w = Ok k w' ->
  store w' = store w /\
  exists n, k = candidate w n /\ key_taken (store w) k = false /\
    (forall i, (i < n)%nat -> key_taken (store w) (candidate w i) = true).
Proof.
  induction fuel as [|fuel IH]; intros w k w' Hu Hrun; [discriminate Hrun|].
  rewrite generateUniqueEventKey_step in Hrun by apply Hu.
  destruct (key_taken (store w) (candidate w 0)) eqn:Ht.
  - apply IH in Hrun as (Hst & n & Hk & Hfree & Hbefore); [|exact Hu].
    split; [exact Hst|]. exists (S n). rewrite candidate_checked in Hk.
    split; [exact Hk|]. split; [exact Hfree|].
    intros [|i] Hi; [exact Ht|].
    rewrite <- candidate_checked. apply Hbefore. lia.
  - injection Hrun as <- <-. split; [reflexivity|]. exists 0%nat.
    split; [reflexivity|]. split; [exact Ht|]. intros i Hi. lia.
Qed.

Lemma checks_checked (w : World) (n : nat) :
  checks imports w (S n)
  = mkSent (render imports (Q_generateUniqueEventKey (candidate w 0))) []
    :: checks imports (checked imports w) n.
Proof.
  unfold checks. cbn [seq map]. f_equal.
  rewrite <- seq_shift, map_map. apply map_ext. intros i.
  now rewrite candidate_checked.
Qed.

Lemma generateUniqueEventKey_terminates (n : nat) : forall (w : World) fuel,
  (forall i, is_uuid (uuids w i) = true) ->
  (forall i, (i < n)%nat -> key_taken (store w) (candidate w i) = true) ->
  key_taken (store w) (candidate w n) = false ->
  (n < fuel)%nat ->
  generateUniqueEventKey imports fuel w
  = Ok (candidate w n)
       (mkWorld (store w) (sent w ++ checks imports w (S n)) (uuids w) (drawn w + S n)).
Proof.
  induction n as [|n IH]; intros w fuel Hu Hbefore Hfree Hfuel;
    (destruct fuel as [|fuel]; [lia|]);
    rewrite generateUniqueEventKey_step by apply Hu.
  - rewrite Hfree. unfold checked. now rewrite Nat.add_1_r.
  - rewrite (Hbefore 0%nat) by lia.
    rewrite (IH (checked imports w) fuel).
    + rewrite candidate_checked, (checks_checked w (S n)).
      unfold checked at 1 2 4 5. cbn [store sent uuids drawn].
      rewrite <- app_assoc. cbn [app]. do 2 f_equal. lia.
    + exact Hu.
    + intros i Hi. rewrite candidate_checked. apply Hbefore. lia.
    + now rewrite candidate_checked.
    + lia.
Qed.

(** C4: [generateUniqueEventKey] draws candidates until one collides with no
    room's event key.  Whenever it returns, the key has 8 characters, is the
    event key of no existing room, and every candidate drawn before it was
    taken; the tables are untouched.  And it does return: when the
    candidate number [n] is the first free one, the run returns it after
    sending [n + 1] uniqueness checks, however much further the loop would
    have been allowed to go. *)
Theorem generateUniqueEventKey_unique (w : World) :
  (forall i, is_uuid (uuids w i) = true) ->
  (forall fuel k w',
     generateUniqueEventKey imports fuel w = Ok k w' ->
     String.length k = 8%nat /\
     ~ In k (existing_keys (store w)) /\
     store w' = store w /\
     exists n, k = candidate w n /\
       forall i, (i < n)%nat -> In (candidate w i) (existing_keys (store w))) /\
  (forall n fuel,
     (forall i, (i < n)%nat -> key_taken (store w) (candidate w i) = true) ->
     key_taken (store w) (candidate w n) = false ->
     (n < fuel)%nat ->
     exists w',
       generateUniqueEventKey imports fuel w = Ok (candidate w n) w' /\
       List.length (sent_since w w') = S n).
Proof.
  intros Hu. split.
  - intros fuel k w' Hrun.
    destruct (generateUniqueEventKey_returns fuel w k w' Hu Hrun)
      as (Hst & n & Hk & Hfree & Hbefore).
    split; [|split; [|split]].
    + subst k. unfold candidate. apply (uuid_key _ (Hu _)).
    + now apply key_taken_false.
    + exact Hst.
    + exists n. split; [exact Hk|]. intros i Hi.
      specialize (Hbefore i Hi). unfold key_taken in Hbefore.
      apply existsb_exists in Hbefore as (k' & Hin & E).
      apply String.eqb_eq in E. now subst k'.
  - intros n fuel Hbefore Hfree Hfuel. eexists. split.
    + now apply generateUniqueEventKey_terminates.
    + rewrite sent_since_app. unfold checks. now rewrite length_map, length_seq.
Qed.

End GeneratorClaims.

(** ** Creation and update *)

Lemma select_last_inserted {A} (key : A -> Z) (p : A -> bool) (l : list A)
    (x : A) (s : Z) :
  Forall (fun r => key r <= s) l -> key x = nextval s -> p x = true ->
  limit 1 (order_by_desc key (filter p (l ++ [x]))) = [x].
Proof.
  intros F Ex Px. rewrite filter_app. cbn [filter]. rewrite Px.
  rewrite order_by_desc_snoc_max; [reflexivity|].
  apply Forall_forall. intros y Hy. apply filter_In in Hy as [Hy _].
  rewrite Forall_forall in F. specialize (F y Hy). unfold nextval in Ex. lia.
Qed.

Lemma Forall2_update_where {A} (R : A -> A -> Prop) (p : A -> bool) (f : A -> A)
    (l : list A) :
  (forall x, R x (if p x then f x else x)) ->
  Forall2 R l (update_where p f l).
Proof.
  intros H. induction l as [|x l IH]; cbn; constructor; auto.
Qed.

Lemma limit_update_where {A} (p : A -> bool) (f : A -> A) (l : list A) :
  (forall x, p (f x) = p x) ->
  limit 1 (filter p (update_where p f l)) = map f (limit 1 (filter p l)).
Proof.
  intros Hp. induction l as [|x l IH]; cbn; [reflexivity|].
  destruct (p x) eqn:E.
  - now rewrite Hp, E.
  - rewrite E. exact IH.
Qed.

Lemma limit_In {A} (n : nat) (l : list A) (x : A) :
  In x (limit n l) -> In x l.
Proof.
  unfold limit. revert l; induction n as [|n IH]; intros [|y l]; cbn; try tauto.
  intros [H|H]; [now left|right; now apply IH].
Qed.

Section CreationClaims.

Variable imports : Imports.

Lemma createQuestion_spec (l : string) (ca : option string) (quiz : Z) (w : World) :
  createQuestion imports l ca quiz w =
  let db' := insert_Question l ca quiz (store w) in
  Ok (selected (limit 1 (order_by_desc question_id
        (filter (fun q => qn_quiz_id q =? quiz) (Question_t db')))))
     (mkWorld db'
        (sent w ++ [createQuestion_insert imports l ca quiz;
                    mkSent (render imports Q_createQuestion_select) [VInt quiz]])
        (uuids w) (drawn w)).
Proof.
  unfold createQuestion, createQuestion_insert, bind, pool_query.
  destruct ca; cbn; rewrite <- app_assoc; reflexivity.
Qed.

Lemma createQuiz_spec (d : Z) (t : string) (room : Z) (w : World) :
  createQuiz imports d t room w =
  let db' := insert_Quiz d t room (store w) in
  Ok (selected (limit 1 (order_by_desc quiz_id
        (filter (fun z => qz_room_id z =? room) (Quiz_t db')))))
     (mkWorld db'
        (sent w ++ [mkSent (render imports Q_createQuiz_insert)
                      [VInt d; VText t; VInt room];
                    mkSent (render imports Q_createQuiz_select) [VInt room]])
        (uuids w) (drawn w)).
Proof.
  unfold createQuiz, bind, pool_query. cbn. rewrite <- app_assoc. reflexivity.
Qed.

Lemma createRoom_spec (k name p : string) (w : World) :
  createRoom imports k name p w =
  let db' := insert_Room k name p (store w) in
  Ok (selected (filter (fun r => (event_key r =? k)%string) (Room_t db')))
     (mkWorld db'
        (sent w ++ [mkSent (render imports Q_createRoom_insert)
                      [VText k; VText name; VText p];
                    mkSent (render imports Q_createRoom_select) [VText k]])
        (uuids w) (drawn w)).
Proof.
  unfold createRoom, bind, pool_query. cbn. rewrite <- app_assoc. reflexivity.
Qed.

Lemma createChoices_spec (q : Z) (labels : list string) : forall (w : World),
  exists db',
    createChoices imports q labels w =
    Ok tt (mkWorld db'
             (sent w ++ map (fun l => mkSent (render imports Q_createChoices_insert)
                                        [VText l; VInt q]) labels)
             (uuids w) (drawn w)) /\
    Choice_t db' = Choice_t (store w) ++ choice_rows (choice_seq (store w)) q labels /\
    Room_t db' = Room_t (store w) /\ Quiz_t db' = Quiz_t (store w) /\
    Question_t db' = Question_t (store w) /\
    AnswerEntry_t db' = AnswerEntry_t (store w).
Proof.
  induction labels as [|l labels IH]; intros w.
  - exists (store w). cbn. unfold ret. rewrite !app_nil_r.
    destruct w; repeat split; reflexivity.
  - cbn [createChoices]. unfold bind, pool_query. cbn [exec].
    destruct (IH (mkWorld (insert_Choice l q (store w))
                    (sent w ++ [mkSent (render imports Q_createChoices_insert)
                                  [VText l; VInt q]])
                    (uuids w) (drawn w)))
      as (db' & Hrun & Hc & Hr & Hz & Hq & Ha).
    exists db'. cbn [store sent uuids drawn] in *. rewrite Hrun.
    split; [now rewrite <- app_assoc|].
    rewrite Hc. cbn. rewrite <- app_assoc. repeat split; assumption.
Qed.

Lemma createQuestionAndChoices_spec (l : string) (ca : option string) (quiz : Z)
    (labels : list string) (w : World) :
  Forall (fun q => question_id q <= question_seq (store w)) (Question_t (store w)) ->
  let created := mkQuestion (nextval (question_seq (store w))) l ca quiz in
  exists db',
    createQuestionAndChoices imports l ca quiz (Some labels) w =
    Ok (selected [created])
       (mkWorld db'
          (sent w ++ createQuestion_insert imports l ca quiz
                  :: mkSent (render imports Q_createQuestion_select) [VInt quiz]
                  :: map (fun c => mkSent (render imports Q_createChoices_insert)
                                     [VText c; VInt (question_id created)]) labels)
          (uuids w) (drawn w)) /\
    Question_t db' = Question_t (store w) ++ [created] /\
    Choice_t db'
      = Choice_t (store w)
        ++ choice_rows (choice_seq (store w)) (question_id created) labels.
Proof.
  intros F created. unfold createQuestionAndChoices, bind at 1.
  rewrite createQuestion_spec. cbv zeta. cbn [insert_Question Question_t].
  rewrite (select_last_inserted question_id _ _ created (question_seq (store w)));
    [|exact F|reflexivity|apply Z.eqb_refl].
  cbn [rows selected]. unfold bind.
  match goal with
  | |- context [createChoices imports ?q labels ?w1] =>
      destruct (createChoices_spec q labels w1)
        as (db' & Hrun & Hc & _ & _ & Hq & _)
  end.
  exists db'. rewrite Hrun. cbn [store sent uuids drawn Question_t Choice_t choice_seq] in *.
  unfold ret. rewrite <- app_assoc. repeat split; assumption.
Qed.

(** C5: on tables whose question ids come from the sequence, creating a
    question with the choice labels A, B, C adds the question and exactly
    three Choice rows, all carrying the created question's id, inserted by
    three INSERT statements sent one after the other in the order of the
    labels; the three rows are what a later [getAllChoicesByQuestion] adds to
    its answer.  With [choiceLabels] undefined the question is added and the
    Choice table is left as it was. *)
Theorem createQuestionAndChoices_choice_rows
    (w : World) (questionLabel : string) (correctAnswer : option string)
    (quizId : Z) :
  Forall (fun q => question_id q <= question_seq (store w)) (Question_t (store w)) ->
  let created :=
    mkQuestion (nextval (question_seq (store w))) questionLabel correctAnswer quizId in
  let qid := question_id created in
  let s := choice_seq (store w) in
  let three :=
    [mkChoice (s + 1) "A" qid; mkChoice (s + 2) "B" qid; mkChoice (s + 3) "C" qid] in
  (exists w' : World,
     createQuestionAndChoices imports questionLabel correctAnswer quizId
       (Some ["A"; "B"; "C"]) w = Ok (selected [created]) w' /\
     Question_t (store w') = Question_t (store w) ++ [created] /\
     Choice_t (store w') = Choice_t (store w) ++ three /\
     result (getAllChoicesByQuestion imports qid w')
       = Some (selected (filter (fun c => c_question_id c =? qid) (Choice_t (store w))
                         ++ three)) /\
     sent_since w w'
       = [createQuestion_insert imports questionLabel correctAnswer quizId;
          mkSent (render imports Q_createQuestion_select) [VInt quizId];
          mkSent (render imports Q_createChoices_insert) [VText "A"; VInt qid];
          mkSent (render imports Q_createChoices_insert) [VText "B"; VInt qid];
          mkSent (render imports Q_createChoices_insert) [VText "C"; VInt qid]]) /\
  (exists w' : World,
     createQuestionAndChoices imports questionLabel correctAnswer quizId None w
       = Ok (selected [created]) w' /\
     Question_t (store w') = Question_t (store w) ++ [created] /\
     Choice_t (store w') = Choice_t (store w) /\
     sent_since w w'
       = [createQuestion_insert imports questionLabel correctAnswer quizId;
          mkSent (render imports Q_createQuestion_select) [VInt quizId]]).
Proof.
  intros F created qid s three. split.
  - destruct (createQuestionAndChoices_spec questionLabel correctAnswer quizId
                ["A"; "B"; "C"] w F) as (db' & Hrun & Hq & Hc).
    fold created in Hrun, Hq, Hc. fold qid in Hrun, Hc.
    assert (choice_rows (choice_seq (store w)) qid ["A"; "B"; "C"] = three) as E.
    { unfold three, s. cbn. unfold nextval.
      replace (choice_seq (store w) + 1 + 1) with (choice_seq (store w) + 2) by lia.
      replace (choice_seq (store w) + 2 + 1) with (choice_seq (store w) + 3) by lia.
      reflexivity. }
    rewrite E in Hc.
    eexists. split; [exact Hrun|]. cbn [store].
    split; [exact Hq|]. split; [exact Hc|]. split.
    + unfold getAllChoicesByQuestion, pool_query. cbn [exec store result].
      rewrite Hc, filter_app. do 3 f_equal.
      unfold three. cbn. subst qid. cbn. rewrite !Z.eqb_refl. reflexivity.
    + apply sent_since_app.
  - unfold createQuestionAndChoices, bind. rewrite createQuestion_spec. cbv zeta.
    cbn [insert_Question Question_t].
    rewrite (select_last_inserted question_id _ _ created (question_seq (store w)));
      [|exact F|reflexivity|apply Z.eqb_refl].
    eexists. split; [reflexivity|]. cbn [store Question_t Choice_t].
    repeat split. apply sent_since_app.
Qed.


End CreationClaims.

Section UpdateClaims.

Variable imports : Imports.

(** C8: [updateQuestion] with [correctAnswer] undefined sends the UPDATE that
    sets [question_label] alone: every question row keeps its id, its
    correct answer and its quiz, the rows with the given id get the new
    label and the other rows keep theirs; no other table changes. *)
Theorem updateQuestion_label_only
    (w : World) (questionId : Z) (questionLabel : string) :
  exists (r : QueryResult Question) (w' : World),
    updateQuestion imports questionId questionLabel None w = Ok r w' /\
    Forall2 (fun old new =>
        question_id new = question_id old /\
        correct_answer new = correct_answer old /\
        qn_quiz_id new = qn_quiz_id old /\
        question_label new
          = if question_id old =? questionId then questionLabel
            else question_label old)
      (Question_t (store w)) (Question_t (store w')) /\
    store w' = set_Question_t (Question_t (store w')) (store w) /\
    sent_since w w'
      = [mkSent (render imports Q_updateQuestion_label)
           [VText questionLabel; VInt questionId];
         mkSent (render imports Q_updateQuestion_select) [VInt questionId]].
Proof.
  unfold updateQuestion, bind, pool_query. cbn [exec store sent uuids drawn].
  eexists. eexists. split; [reflexivity|]. cbn [store set_Question_t Question_t].
  split; [|split; [reflexivity|]].
  - apply Forall2_update_where. intros q.
    destruct (question_id q =? questionId); cbn; auto.
  - rewrite <- app_assoc. apply sent_since_app.
Qed.

(** C10: [updateQuiz] has one UPDATE, which sets both [max_duration] and
    [title]: every quiz row keeps its id and its room, the rows with the
    given id get the supplied duration and title, the other rows are
    unchanged, and so is every other table; the row returned is an updated
    one. *)
Theorem updateQuiz_overwrites_both
    (w : World) (quizId : Z) (maxDuration : Z) (title' : string) :
  exists (r : QueryResult Quiz) (w' : World),
    updateQuiz imports quizId maxDuration title' w = Ok r w' /\
    Forall2 (fun old new =>
        quiz_id new = quiz_id old /\
        qz_room_id new = qz_room_id old /\
        if quiz_id old =? quizId
        then max_duration new = maxDuration /\ title new = title'
        else new = old)
      (Quiz_t (store w)) (Quiz_t (store w')) /\
    store w' = set_Quiz_t (Quiz_t (store w')) (store w) /\
    Forall (fun z => quiz_id z = quizId /\ max_duration z = maxDuration /\
                     title z = title') (rows r) /\
    sent_since w w'
      = [mkSent (render imports Q_updateQuiz_update)
           [VInt maxDuration; VText title'; VInt quizId];
         mkSent (render imports Q_updateQuiz_select) [VInt quizId]].
Proof.
  unfold updateQuiz, bind, pool_query. cbn [exec store sent uuids drawn].
  eexists. eexists. split; [reflexivity|].
  cbn [store set_Quiz_t Quiz_t rows selected].
  split; [|split; [reflexivity|split]].
  - apply Forall2_update_where. intros z.
    destruct (quiz_id z =? quizId); cbn; auto.
  - rewrite (limit_update_where (fun z => quiz_id z =? quizId)) by reflexivity.
    apply Forall_map, Forall_forall. intros z Hz. cbn.
    apply limit_In, filter_In in Hz as [_ Hz].
    apply Z.eqb_eq in Hz. auto.
  - rewrite <- app_assoc. apply sent_since_app.
Qed.

End UpdateClaims.

(** ** Query texts *)

Lemma append_inv_head (p a b : string) : (p ++ a = p ++ b)%string -> a = b.
Proof.
  induction p as [|c p IH]; cbn; intros H; [exact H|].
  injection H as H. exact (IH H).
Qed.

Lemma append_inv_tail (c : ascii) (a : string) : forall b : string,
  (a ++ String c EmptyString = b ++ String c EmptyString)%string -> a = b.
Proof.
  induction a as [|x a IH]; intros [|y b]; cbn; intros H.
  - reflexivity.
  - injection H as _ H. destruct b; discriminate H.
  - injection H as _ H. destruct a; discriminate H.
  - injection H as -> H. f_equal. exact (IH b H).
Qed.

Lemma select_last_nonempty {A} (key : A -> Z) (p : A -> bool) (l : list A) (x : A) :
  p x = true ->
  exists y, limit 1 (order_by_desc key (filter p (l ++ [x]))) = [y].
Proof.
  intros Px. rewrite filter_app. cbn [filter]. rewrite Px.
  unfold order_by_desc.
  pose proof (Permutation_length
                (order_by_perm (fun x => - key x) (filter p l ++ [x]))) as Hlen.
  rewrite length_app in Hlen. cbn in Hlen.
  destruct (order_by (fun x => - key x) (filter p l ++ [x])) as [|y ys].
  - cbn in Hlen. lia.
  - exists y. reflexivity.
Qed.

Lemma after_ignore {A} (m : M A) (w : World) : after (ignore m w) = after (m w).
Proof. unfold ignore, bind. destruct (m w); reflexivity. Qed.

Lemma nth_error_single {A} (a t : A) (i : nat) :
  nth_error [a] i = Some t -> t = a.
Proof. destruct i as [|[|i]]; cbn; congruence. Qed.

Lemma nth_error_pair {A} (a b t : A) (i : nat) :
  nth_error [a; b] i = Some t -> t = match i with O => a | _ => b end.
Proof. destruct i as [|[|[|i]]]; cbn; congruence. Qed.

Section TextClaims.

Variable imports : Imports.

Lemma probes_alternate (qs : list Question) : forall (i : nat) (t : string),
  nth_error (map text (flat_map (fun q => probes imports (question_id q)) qs)) i
    = Some t ->
  t = if Nat.even i then render imports Q_getAllChoicesByQuestion
      else render imports Q_getAllAnswersByQuestion.
Proof.
  induction qs as [|q qs IH]; intros i t; cbn [flat_map map].
  - destruct i; discriminate.
  - destruct i as [|[|i]]; cbn; [congruence..|]. apply IH.
Qed.

Lemma createChoices_texts (q : Z) (labels : list string) (w : World) :
  map text (sent_since w (after (createChoices imports q labels w)))
  = repeat (render imports Q_createChoices_insert) (List.length labels).
Proof.
  destruct (createChoices_spec imports q labels w) as (db' & -> & _).
  cbn [after]. rewrite sent_since_app, map_map. cbn.
  induction labels; cbn; congruence.
Qed.

Lemma createQuestionAndChoices_texts (l : string) (ca : option string) (quiz : Z)
    (cl : option (list string)) (w : World) :
  exists n,
    map text (sent_since w (after (createQuestionAndChoices imports l ca quiz cl w)))
    = text (createQuestion_insert imports l ca quiz)
      :: render imports Q_createQuestion_select
      :: repeat (render imports Q_createChoices_insert) n.
Proof.
  unfold createQuestionAndChoices, bind at 1. rewrite createQuestion_spec. cbv zeta.
  cbn [insert_Question Question_t].
  destruct (select_last_nonempty question_id (fun q => qn_quiz_id q =? quiz)
              (Question_t (store w))
              (mkQuestion (nextval (question_seq (store w))) l ca quiz)
              (Z.eqb_refl _)) as [q0 ->].
  destruct cl as [labels|].
  - exists (List.length labels). cbn [rows selected]. unfold bind.
    match goal with
    | |- context [createChoices imports ?q labels ?w1] =>
        destruct (createChoices_spec imports q labels w1) as (db' & -> & _)
    end.
    cbn [after ret sent store uuids drawn]. rewrite <- app_assoc.
    rewrite sent_since_app. cbn [app map text]. do 2 f_equal.
    rewrite map_map. cbn. induction labels; cbn; congruence.
  - exists 0%nat. cbn [after ret]. now rewrite sent_since_app.
Qed.

Lemma texts_follow_template (c : call) (w : World) (i : nat) (t : string) :
  splices c = false ->
  nth_error (texts_sent imports c w) i = Some t ->
  t = template imports c i.
Proof.
  intros Hs. unfold texts_sent.
  destruct c; try discriminate Hs; cbn [perform template];
    rewrite ?after_ignore.
  all: try (unfold getAllQuestionsByEventKey, getAllChoicesByQuestion, createAnswer,
              getAllAnswersByQuiz, getRoomByEventKey, getAllQuizzesByEventKey,
              getAllRoomsByPresenter, getAllAnswersByQuestion, pool_query;
            cbn [exec after]; rewrite sent_since_app; apply nth_error_single).
  - unfold resetDatabase, bind, pool_query. cbn [exec after ret store sent].
    rewrite <- app_assoc, sent_since_app. apply nth_error_pair.
  - rewrite createRoom_spec. cbv zeta. cbn [after]. rewrite sent_since_app.
    apply nth_error_pair.
  - rewrite createQuiz_spec. cbv zeta. cbn [after]. rewrite sent_since_app.
    apply nth_error_pair.
  - match goal with
    | |- context [createQuestionAndChoices imports ?l ?ca ?q ?cl w] =>
        destruct (createQuestionAndChoices_texts l ca q cl w) as [n ->]
    end.
    destruct i as [|[|i]]; cbn [nth_error].
    + destruct correctAnswer; cbn; congruence.
    + congruence.
    + intros H. apply nth_error_In, repeat_spec in H. exact H.
  - rewrite createQuestion_spec. cbv zeta. cbn [after]. rewrite sent_since_app.
    intros H. apply nth_error_pair in H. destruct correctAnswer; exact H.
  - rewrite createChoices_texts. intros H.
    apply nth_error_In, repeat_spec in H. exact H.
  - unfold updateQuiz, bind, pool_query. cbn [exec after store sent].
    rewrite <- app_assoc, sent_since_app. apply nth_error_pair.
  - unfold updateQuestion, bind, pool_query.
    destruct correctAnswer; cbn [exec after store sent];
      rewrite <- app_assoc, sent_since_app; apply nth_error_pair.
  - rewrite getAllAnswersByEventKey_spec. cbn [after]. rewrite sent_since_app.
    destruct i as [|i]; cbn [map nth_error text]; [congruence|].
    apply probes_alternate.
Qed.

Lemma template_same_shape (c1 c2 : call) (i : nat) :
  same_shape c1 c2 = true -> template imports c1 i = template imports c2 i.
Proof.
  destruct c1, c2; try discriminate; cbn; try reflexivity;
    repeat match goal with o : option _ |- _ => destruct o end;
    cbn; try discriminate; reflexivity.
Qed.

(** C9, as amended: in every method but two, the caller's values travel in
    the parameter array and the query text does not depend on them: two
    calls of the same method send the same text at every position at which
    both send a query, whatever the argument values and the tables are, as
    long as they agree on whether a correct answer is supplied (the INSERT of
    [createQuestion] and the UPDATE of [updateQuestion] have one text with
    the column and one without).  The two exceptions are
    [getAllFromTable], whose one text has the table name spliced in, and
    the uniqueness check of [generateUniqueEventKey], whose text has the
    generated token spliced in: there the text determines the value. *)
Theorem query_text_independent_of_values :
  (forall (c1 c2 : call) (w1 w2 : World) (i : nat) (t1 t2 : string),
     same_shape c1 c2 = true ->
     splices c1 = false ->
     nth_error (texts_sent imports c1 w1) i = Some t1 ->
     nth_error (texts_sent imports c2 w2) i = Some t2 ->
     t1 = t2) /\
  (forall (w : World) (tableName : string),
     texts_sent imports (Call_getAllFromTable tableName) w
       = [render imports (Q_getAllFromTable tableName)]) /\
  (forall t1 t2 : string,
     render imports (Q_getAllFromTable t1) = render imports (Q_getAllFromTable t2) ->
     t1 = t2) /\
  (forall k1 k2 : string,
     render imports (Q_generateUniqueEventKey k1)
       = render imports (Q_generateUniqueEventKey k2) ->
     k1 = k2).
Proof.
  split; [|split; [|split]].
  - intros c1 c2 w1 w2 i t1 t2 Hsame Hs1 H1 H2.
    assert (splices c2 = false) as Hs2
      by (destruct c1, c2; try discriminate; reflexivity).
    rewrite (texts_follow_template c1 w1 i t1 Hs1 H1),
            (texts_follow_template c2 w2 i t2 Hs2 H2).
    now apply template_same_shape.
  - intros w tableName. unfold texts_sent. cbn [perform].
    rewrite after_ignore. unfold getAllFromTable, pool_query. cbn [exec].
    destruct (run_select_from imports tableName (store w)) as [[db' l]|];
      cbn [after]; now rewrite sent_since_app.
  - intros t1 t2 H. unfold render in H.
    now do 3 apply append_inv_head in H.
  - intros k1 k2 H. unfold render in H.
    do 3 apply append_inv_head in H. now apply append_inv_tail in H.
Qed.

End TextClaims.

(** * The claims on the sample deployment *)

Ltac nodup :=
  repeat (apply NoDup_cons; [cbn; intuition discriminate|]); apply NoDup_nil.

Lemma sample_db_consistent : consistent sample_db.
Proof.
  split; [repeat split; cbn; nodup|].
  repeat split; cbn; repeat constructor; cbn; lia.
Qed.

Lemma getAllAnswersByEventKey_one_bundle_per_question_witness :
  NoDup (map room_id (Room_t (store sample_world))) /\
  NoDup (map quiz_id (Quiz_t (store sample_world))) /\
  exists (qs : list Question) (w' : World),
    getAllAnswersByEventKey sample_imports "abc123de" sample_world
      = Ok (map (bundle_of (store sample_world)) qs) w' /\
    store w' = store sample_world /\
    Permutation qs
      (filter (in_room "abc123de" (store sample_world))
         (Question_t (store sample_world))) /\
    StronglySorted (fun a b => question_id a <= question_id b) qs.
Proof.
  assert (NoDup (map room_id (Room_t (store sample_world)))) as H1 by (cbn; nodup).
  assert (NoDup (map quiz_id (Quiz_t (store sample_world)))) as H2 by (cbn; nodup).
  split; [exact H1|]. split; [exact H2|].
  exact (getAllAnswersByEventKey_one_bundle_per_question
           sample_imports sample_world "abc123de" H1 H2).
Defined.

Lemma aggregation_returns_every_answer_in_order_witness :
  exists (w1 : World) (bundles : list Bundle) (w2 : World) (b : Bundle),
    submit_all sample_imports sample_submissions sample_world = Ok tt w1 /\
    getAllAnswersByEventKey sample_imports "abc123de" w1 = Ok bundles w2 /\
    In b bundles /\ questionId b = 1 /\ answers b = ["4"; "4"; "5"; "5"].
Proof.
  destruct (aggregation_returns_every_answer_in_order sample_imports sample_world
              sample_submissions "abc123de")
    as (w1 & bundles & w2 & Hrun & Hagg & Hall & Hsome).
  destruct (Hsome (mkQuestion 1 "2+2?" (Some "4") 1) (or_introl eq_refl) eq_refl)
    as (b & Hb & Hid).
  exists w1, bundles, w2, b. repeat split; try assumption.
  rewrite Forall_forall in Hall. destruct (Hall b Hb) as (_ & -> & _).
  cbn in Hid. rewrite Hid. reflexivity.
Defined.

Lemma aggregation_empty_cases_witness :
  (exists (bundles : list Bundle) (w' : World),
     getAllAnswersByEventKey sample_imports "abc123de" sample_world = Ok bundles w' /\
     In (mkBundle 2 "Why?" [] []) bundles) /\
  (exists w' : World,
     getAllAnswersByEventKey sample_imports "7c9e6679" sample_world = Ok [] w') /\
  (exists w' : World,
     getAllAnswersByEventKey sample_imports "zzzzzzzz" sample_world = Ok [] w').
Proof.
  split; [|split].
  - destruct (aggregation_empty_cases sample_imports sample_world "abc123de")
      as (bundles & w' & Hrun & Hkept & _).
    exists bundles, w'. split; [exact Hrun|].
    apply (Hkept (mkQuestion 2 "Why?" None 2)); [cbn; tauto|reflexivity..].
  - destruct (aggregation_empty_cases sample_imports sample_world "7c9e6679")
      as (bundles & w' & Hrun & _ & Hnone & _).
    exists w'. rewrite <- (Hnone eq_refl). exact Hrun.
  - destruct (aggregation_empty_cases sample_imports sample_world "zzzzzzzz")
      as (bundles & w' & Hrun & _ & _ & Hkey).
    exists w'. rewrite <- Hkey; [exact Hrun|].
    cbn. intuition discriminate.
Defined.

Lemma generateUniqueEventKey_unique_witness :
  (forall i, is_uuid (uuids sample_world i) = true) /\
  exists w' : World,
    generateUniqueEventKey sample_imports 5 sample_world = Ok "3f2504e0" w' /\
    List.length (sent_since sample_world w') = 3%nat.
Proof.
  assert (forall i, is_uuid (uuids sample_world i) = true) as Hu
    by (intros [|[|i]]; reflexivity).
  split; [exact Hu|].
  apply (proj2 (generateUniqueEventKey_unique sample_imports sample_world Hu)
           2%nat 5%nat).
  - intros [|[|i]] Hi; [reflexivity|reflexivity|lia].
  - reflexivity.
  - lia.
Defined.

Lemma createQuestionAndChoices_choice_rows_witness :
  Forall (fun q => question_id q <= question_seq (store sample_world))
    (Question_t (store sample_world)) /\
  Choice_t (store (after (createQuestionAndChoices sample_imports "Pick one" None 1
                            (Some ["A"; "B"; "C"]) sample_world)))
  = Choice_t sample_db ++ [mkChoice 4 "A" 4; mkChoice 5 "B" 4; mkChoice 6 "C" 4].
Proof.
  assert (Forall (fun q => question_id q <= question_seq (store sample_world))
            (Question_t (store sample_world))) as F
    by (cbn; repeat constructor; cbn; lia).
  split; [exact F|].
  destruct (proj1 (createQuestionAndChoices_choice_rows sample_imports sample_world
                     "Pick one" None 1 F))
    as (w' & Hrun & _ & Hc & _).
  rewrite Hrun. exact Hc.
Defined.


Lemma createAnswer_unconditional_witness :
  exists (w1 : World) (bundles : list Bundle) (w2 : World),
    submit_all sample_imports (repeat (mkSubmission 1 "u1" "4") 3) sample_world
      = Ok tt w1 /\
    getAllAnswersByEventKey sample_imports "abc123de" w1 = Ok bundles w2 /\
    Forall (fun b => questionId b = 1 -> answers b = ["4"; "4"; "4"; "4"; "4"])
      bundles /\
    In (mkBundle 1 "2+2?" ["3"; "4"; "5"] ["4"; "4"; "4"; "4"; "4"]) bundles.
Proof.
  destruct (proj2 (createAnswer_unconditional sample_imports sample_world 1 "u1" "4")
              3%nat "abc123de")
    as (w1 & bundles & w2 & Hrun & _ & Hagg & Hall & Hin).
  exists w1, bundles, w2. repeat split; try assumption.
  exact (Hin (mkQuestion 1 "2+2?" (Some "4") 1) (or_introl eq_refl) eq_refl eq_refl).
Defined.

Lemma query_text_independent_of_values_witness :
  same_shape (Call_createAnswer 1 "u1" "4") (Call_createAnswer 7 "u2" "x'); --") = true /\
  splices (Call_createAnswer 1 "u1" "4") = false /\
  exists t1 t2 : string,
    nth_error (texts_sent sample_imports (Call_createAnswer 1 "u1" "4") sample_world) 0
      = Some t1 /\
    nth_error (texts_sent sample_imports (Call_createAnswer 7 "u2" "x'); --")
                 (mkWorld empty_db [] sample_uuids 0)) 0
      = Some t2 /\
    t1 = t2.
Proof.
  split; [reflexivity|]. split; [reflexivity|].
  eexists. eexists. split; [reflexivity|]. split; [reflexivity|].
  exact (proj1 (query_text_independent_of_values sample_imports)
           (Call_createAnswer 1 "u1" "4") (Call_createAnswer 7 "u2" "x'); --")
           sample_world (mkWorld empty_db [] sample_uuids 0) 0%nat
           _ _ eq_refl eq_refl eq_refl eq_refl).
Defined.

(** The text of [getAllFromTable] changes with the table name, and the
    INSERT of [createQuestion] with the presence of the correct answer. *)
Lemma query_text_depends_on_arguments :
  same_shape (Call_getAllFromTable "Room") (Call_getAllFromTable "Quiz") = true /\
  texts_sent sample_imports (Call_getAllFromTable "Room") sample_world
    = ["SELECT * FROM konzert.Room"] /\
  texts_sent sample_imports (Call_getAllFromTable "Quiz") sample_world
    = ["SELECT * FROM konzert.Quiz"] /\
  texts_sent sample_imports (Call_getAllFromTable "Room") sample_world
    <> texts_sent sample_imports (Call_getAllFromTable "Quiz") sample_world /\
  nth_error (texts_sent sample_imports (Call_createQuestion "2+2?" (Some "4") 1)
               sample_world) 0
    = Some "INSERT INTO konzert.Question (question_label, correct_answer, quiz_id) VALUES ($1,$2,$3);" /\
  nth_error (texts_sent sample_imports (Call_createQuestion "2+2?" None 1)
               sample_world) 0
    = Some "INSERT INTO konzert.Question (question_label, quiz_id) VALUES ($1,$2);".
Proof.
  repeat split; try reflexivity.
  intros H. vm_compute in H. discriminate H.
Qed.

(** * Further properties of the service *)

(** ** Updates *)

Lemma set_Quiz_t_same (db : Database) : set_Quiz_t (Quiz_t db) db = db.
Proof. destruct db; reflexivity. Qed.

Lemma set_Question_t_same (db : Database) : set_Question_t (Question_t db) db = db.
Proof. destruct db; reflexivity. Qed.

Lemma update_where_none {A} (p : A -> bool) (f : A -> A) (l : list A) :
  (forall x, In x l -> p x = false) -> update_where p f l = l.
Proof.
  intros H. unfold update_where. rewrite <- (map_id l) at 2.
  apply map_ext_in. intros x Hx. now rewrite (H x Hx).
Qed.

Lemma filter_none {A} (p : A -> bool) (l : list A) :
  (forall x, In x l -> p x = false) -> filter p l = [].
Proof.
  intros H. apply no_member_nil. intros x Hx. apply filter_In in Hx as [Hx Px].
  rewrite (H x Hx) in Px. discriminate Px.
Qed.

Lemma update_where_twice {A} (p : A -> bool) (f g h : A -> A) (l : list A) :
  (forall x, p (f x) = p x) -> (forall x, g (f x) = h x) ->
  update_where p g (update_where p f l) = update_where p h l.
Proof.
  intros Hp Hg. unfold update_where. rewrite map_map. apply map_ext.
  intros x. destruct (p x) eqn:E; [now rewrite Hp, E, Hg|now rewrite E].
Qed.

Section UpdateFacts.

Variable imports : Imports.

Lemma updateQuiz_spec (q d : Z) (t : string) (w : World) :
  updateQuiz imports q d t w =
  let hit := fun z => quiz_id z =? q in
  let db' := set_Quiz_t (update_where hit
                 (fun z => mkQuiz (quiz_id z) d t (qz_room_id z))
                 (Quiz_t (store w))) (store w) in
  Ok (selected (limit 1 (filter hit (Quiz_t db'))))
     (mkWorld db'
        (sent w ++ [mkSent (render imports Q_updateQuiz_update)
                      [VInt d; VText t; VInt q];
                    mkSent (render imports Q_updateQuiz_select) [VInt q]])
        (uuids w) (drawn w)).
Proof.
  unfold updateQuiz, bind, pool_query. cbn. rewrite <- app_assoc. reflexivity.
Qed.

Lemma updateQuestion_spec (q : Z) (l : string) (ca : option string) (w : World) :
  updateQuestion imports q l ca w =
  let hit := fun x => question_id x =? q in
  let db' := set_Question_t (update_where hit
                 (fun x => mkQuestion (question_id x) l
                             (merged_answer (correct_answer x) ca) (qn_quiz_id x))
                 (Question_t (store w))) (store w) in
  Ok (selected (limit 1 (filter hit (Question_t db'))))
     (mkWorld db'
        (sent w ++ [match ca with
                    | None => mkSent (render imports Q_updateQuestion_label)
                                [VText l; VInt q]
                    | Some a => mkSent (render imports Q_updateQuestion_both)
                                  [VText l; VText a; VInt q]
                    end;
                    mkSent (render imports Q_updateQuestion_select) [VInt q]])
        (uuids w) (drawn w)).
Proof.
  unfold updateQuestion, bind, pool_query.
  destruct ca; cbn; rewrite <- app_assoc; reflexivity.
Qed.

(** X1: [updateQuestion] with a correct answer (a string) supplied sets the
    label and the correct answer of the rows with the given id and leaves
    every other row as it was.  Every row it returns has the id, the new
    label and the new answer, and when a question has the id it returns
    exactly one such row. *)
Theorem updateQuestion_sets_label_and_answer
    (w : World) (questionId' : Z) (label ca : string) :
  exists (r : QueryResult Question) (w' : World),
    updateQuestion imports questionId' label (Some ca) w = Ok r w' /\
    Forall2 (fun old new =>
        question_id new = question_id old /\
        qn_quiz_id new = qn_quiz_id old /\
        if question_id old =? questionId'
        then question_label new = label /\ correct_answer new = Some ca
        else new = old)
      (Question_t (store w)) (Question_t (store w')) /\
    Forall (fun q => question_id q = questionId' /\ question_label q = label /\
                     correct_answer q = Some ca) (rows r) /\
    (In questionId' (map question_id (Question_t (store w))) ->
     exists q, rows r = [q]).
Proof.
  rewrite updateQuestion_spec. cbv zeta.
  eexists. eexists. split; [reflexivity|].
  cbn [store set_Question_t Question_t rows selected].
  rewrite (limit_update_where (fun x => question_id x =? questionId'))
    by reflexivity.
  split; [|split].
  - apply Forall2_update_where. intros q.
    destruct (question_id q =? questionId'); cbn; auto.
  - apply Forall_map, Forall_forall. intros q Hq. cbn.
    apply limit_In, filter_In in Hq as [_ Hq]. apply Z.eqb_eq in Hq. auto.
  - intros Hid. apply in_map_iff in Hid as (x & Ex & Hx).
    assert (In x (filter (fun y => question_id y =? questionId')
                    (Question_t (store w)))) as Hf
      by (apply filter_In; split; [exact Hx|now apply Z.eqb_eq]).
    destruct (filter (fun y => question_id y =? questionId')
                (Question_t (store w))) as [|y ys]; [destruct Hf|].
    eexists. reflexivity.
Qed.

(** X2: updating an id that no row has is not an error: [updateQuiz] and
    [updateQuestion] send their two statements, return an empty result and
    leave every table as it was. *)
Theorem update_of_missing_id_changes_nothing (w : World) (id : Z) :
  (~ In id (map quiz_id (Quiz_t (store w))) ->
   forall (maxDuration : Z) (title' : string),
     exists w' : World,
       updateQuiz imports id maxDuration title' w = Ok (selected []) w' /\
       store w' = store w /\ List.length (sent_since w w') = 2%nat) /\
  (~ In id (map question_id (Question_t (store w))) ->
   forall (label : string) (ca : option string),
     exists w' : World,
       updateQuestion imports id label ca w = Ok (selected []) w' /\
       store w' = store w /\ List.length (sent_since w w') = 2%nat).
Proof.
  split.
  - intros Hid d t. rewrite updateQuiz_spec. cbv zeta.
    assert (forall z, In z (Quiz_t (store w)) -> (quiz_id z =? id) = false) as Hno.
    { intros z Hz. apply Z.eqb_neq. intros E. apply Hid. rewrite <- E.
      now apply in_map. }
    rewrite (update_where_none _ _ _ Hno), set_Quiz_t_same, (filter_none _ _ Hno).
    eexists. split; [reflexivity|]. split; [reflexivity|].
    now rewrite sent_since_app.
  - intros Hid l ca. rewrite updateQuestion_spec. cbv zeta.
    assert (forall q, In q (Question_t (store w)) -> (question_id q =? id) = false)
      as Hno.
    { intros q Hq. apply Z.eqb_neq. intros E. apply Hid. rewrite <- E.
      now apply in_map. }
    rewrite (update_where_none _ _ _ Hno), set_Question_t_same,
            (filter_none _ _ Hno).
    eexists. split; [reflexivity|]. split; [reflexivity|].
    now rewrite sent_since_app.
Qed.

(** X3: two updates of the same row in a row leave the tables as the last
    one alone would: for a quiz the second duration and title win; for a
    question the second label wins, and the correct answer is the second
    one when it is supplied and the first one otherwise.  The row returned
    is the same as well. *)
Theorem last_update_wins (w : World) (id : Z) :
  (forall (d1 d2 : Z) (t1 t2 : string),
     let twice := (updateQuiz imports id d1 t1 ;; updateQuiz imports id d2 t2) w in
     let once := updateQuiz imports id d2 t2 w in
     store (after twice) = store (after once) /\ result twice = result once) /\
  (forall (l1 l2 : string) (ca1 ca2 : option string),
     let twice :=
       (updateQuestion imports id l1 ca1 ;; updateQuestion imports id l2 ca2) w in
     let once := updateQuestion imports id l2 (merged_answer ca1 ca2) w in
     store (after twice) = store (after once) /\ result twice = result once).
Proof.
  split.
  - intros d1 d2 t1 t2. cbv zeta. unfold bind.
    rewrite (updateQuiz_spec id d1 t1 w). cbv zeta.
    rewrite !updateQuiz_spec. cbv zeta.
    cbn [after result store set_Quiz_t Quiz_t Room_t Question_t Choice_t
         AnswerEntry_t room_seq quiz_seq question_seq choice_seq].
    rewrite (update_where_twice _ _ _
               (fun z => mkQuiz (quiz_id z) d2 t2 (qz_room_id z)))
      by reflexivity.
    split; reflexivity.
  - intros l1 l2 ca1 ca2. cbv zeta. unfold bind.
    rewrite (updateQuestion_spec id l1 ca1 w). cbv zeta.
    rewrite !updateQuestion_spec. cbv zeta.
    cbn [after result store set_Question_t Quiz_t Room_t Question_t Choice_t
         AnswerEntry_t room_seq quiz_seq question_seq choice_seq].
    rewrite (update_where_twice _ _ _
               (fun x => mkQuestion (question_id x) l2
                           (merged_answer (correct_answer x) (merged_answer ca1 ca2))
                           (qn_quiz_id x))).
    + split; reflexivity.
    + reflexivity.
    + intros x. cbn. destruct ca2; reflexivity.
Qed.

End UpdateFacts.

(** ** Rooms *)

Lemma key_free_no_room (db : Database) (k : string) :
  ~ In k (existing_keys db) ->
  filter (fun r => (event_key r =? k)%string) (Room_t db) = [].
Proof.
  intros Hfree. apply filter_none. intros r Hr.
  apply String.eqb_neq. intros E. apply Hfree. subst k.
  unfold existing_keys. now apply in_map.
Qed.

Lemma key_unique_one_room (rooms : list Room) (k : string) :
  NoDup (map event_key rooms) ->
  (List.length (filter (fun r => (event_key r =? k)%string) rooms) <= 1)%nat.
Proof.
  induction rooms as [|r rooms IH]; cbn; intros ND; [lia|].
  inversion ND as [|? ? Hnotin ND']; subst.
  destruct (String.eqb_spec (event_key r) k) as [E|E]; [|auto].
  rewrite (filter_none _ rooms); [cbn; lia|].
  intros r' Hr'. apply String.eqb_neq. intros E'. apply Hnotin.
  rewrite E, <- E'. now apply in_map.
Qed.

Section RoomFacts.

Variable imports : Imports.

Lemma getRoomByEventKey_spec (k : string) (w : World) :
  getRoomByEventKey imports k w =
  Ok (selected (filter (fun r => (event_key r =? k)%string) (Room_t (store w))))
     (mkWorld (store w)
        (sent w ++ [mkSent (render imports Q_getRoomByEventKey) [VText k]])
        (uuids w) (drawn w)).
Proof. reflexivity. Qed.

(** X4: a key returned by [generateUniqueEventKey] and then given to
    [createRoom] yields exactly the new room, and event keys that were
    pairwise distinct stay pairwise distinct. *)
Theorem generated_key_creates_one_room
    (w w1 : World) (fuel : nat) (k name presenterId : string) :
  (forall i, is_uuid (uuids w i) = true) ->
  keys_unique (store w) ->
  generateUniqueEventKey imports fuel w = Ok k w1 ->
  exists w2 : World,
    createRoom imports k name presenterId w1
      = Ok (selected [mkRoom (nextval (room_seq (store w))) k name presenterId]) w2 /\
    keys_unique (store w2) /\
    String.length k = 8%nat.
Proof.
  intros Hu Huniq Hrun.
  destruct (generateUniqueEventKey_returns imports fuel w k w1 Hu Hrun)
    as (Hst & n & Hk & Hfree & _).
  apply key_taken_false in Hfree.
  rewrite createRoom_spec. cbv zeta. rewrite Hst.
  cbn [insert_Room Room_t]. rewrite filter_app, (key_free_no_room _ _ Hfree).
  cbn [filter app]. rewrite String.eqb_refl.
  eexists. split; [reflexivity|]. split.
  - unfold keys_unique, existing_keys. cbn [store insert_Room Room_t].
    rewrite map_app.
    apply NoDup_app; [exact Huniq|repeat constructor; intros []|].
    intros k' Hin [<-|[]]. exact (Hfree Hin).
  - subst k. unfold candidate. apply (uuid_key _ (Hu _)).
Qed.

(** X5: what [createRoom] returns is what [getRoomByEventKey] returns for the
    same key right after it, and the created room is among the rows. *)
Theorem createRoom_then_getRoomByEventKey
    (w : World) (k name presenterId : string) :
  exists (r : QueryResult Room) (w1 w2 : World),
    createRoom imports k name presenterId w = Ok r w1 /\
    getRoomByEventKey imports k w1 = Ok r w2 /\
    store w2 = store w1 /\
    In (mkRoom (nextval (room_seq (store w))) k name presenterId) (rows r).
Proof.
  rewrite createRoom_spec. cbv zeta. eexists. eexists. eexists.
  split; [reflexivity|]. rewrite getRoomByEventKey_spec. cbn [store].
  split; [reflexivity|]. split; [reflexivity|].
  cbn [rows selected insert_Room Room_t]. apply filter_In. split.
  - apply in_or_app. right. now left.
  - apply String.eqb_refl.
Qed.

(** X6: while event keys are pairwise distinct, [getRoomByEventKey] returns
    at most one room; for a key that no room has it returns an empty result
    rather than an error.  The tables are not touched. *)
Theorem getRoomByEventKey_at_most_one (w : World) (k : string) :
  keys_unique (store w) ->
  exists (r : QueryResult Room) (w' : World),
    getRoomByEventKey imports k w = Ok r w' /\
    store w' = store w /\
    (List.length (rows r) <= 1)%nat /\
    Forall (fun room => event_key room = k) (rows r) /\
    (~ In k (existing_keys (store w)) -> rows r = []).
Proof.
  intros Huniq. rewrite getRoomByEventKey_spec. eexists. eexists.
  split; [reflexivity|]. split; [reflexivity|]. cbn [rows selected].
  split; [now apply key_unique_one_room|]. split.
  - apply Forall_forall. intros r Hr. apply filter_In in Hr as [_ Hr].
    now apply String.eqb_eq.
  - apply key_free_no_room.
Qed.

(** X7: after [createRoom], the rooms [getAllRoomsByPresenter] returns for
    the creating presenter are the ones it returned before followed by the
    new room, and for any other presenter they are the same as before. *)
Theorem createRoom_then_getAllRoomsByPresenter
    (w : World) (k name presenterId other : string) :
  option_map rows
    (result (getAllRoomsByPresenter imports other
               (after (createRoom imports k name presenterId w))))
  = option_map (fun r => rows r ++
                  if (presenterId =? other)%string
                  then [mkRoom (nextval (room_seq (store w))) k name presenterId]
                  else [])
      (result (getAllRoomsByPresenter imports other w)).
Proof.
  rewrite createRoom_spec. cbv zeta.
  unfold getAllRoomsByPresenter, pool_query.
  cbn [after exec store result option_map rows selected insert_Room Room_t].
  rewrite filter_app. cbn [filter presenter_id].
  destruct (presenterId =? other)%string; reflexivity.
Qed.

End RoomFacts.

(** ** Quizzes of a room, answers of a quiz *)

(** With a primary key on Room, the join yields each quiz of the room once. *)
Lemma join_quiz_in_room (k : string) (rooms : list Room) (quizzes : list Quiz) :
  NoDup (map room_id rooms) ->
  flat_map (fun q =>
    flat_map (fun r =>
      if (event_key r =? k)%string && (room_id r =? qz_room_id q)
      then [q] else []) rooms) quizzes
  = filter (fun q =>
      existsb (fun r => (room_id r =? qz_room_id q) && (event_key r =? k)%string)
        rooms) quizzes.
Proof.
  intros NDr. induction quizzes as [|q qs IH]; cbn; [reflexivity|].
  rewrite IH. clear IH.
  rewrite (flat_map_filter (fun r => room_id r =? qz_room_id q)),
          (existsb_filter (fun r => room_id r =? qz_room_id q)).
  2: { intros r Hr. now rewrite Hr. }
  2: { intros r Hr. now rewrite Hr, andb_false_r. }
  destruct (filter_key_unique room_id (qz_room_id q) rooms NDr)
    as [->|[r [-> Er]]]; cbn; [reflexivity|].
  rewrite Er, Z.eqb_refl, andb_true_r, orb_false_r. cbn.
  destruct (event_key r =? k)%string; reflexivity.
Qed.

(** With a primary key on Question, the join yields each answer to a
    question of the quiz once. *)
Lemma join_answer_in_quiz (quiz : Z) (questions : list Question)
    (entries : list AnswerEntry) :
  NoDup (map question_id questions) ->
  flat_map (fun a =>
    flat_map (fun q =>
      if (qn_quiz_id q =? quiz) && (question_id q =? a_question_id a)
      then [a] else []) questions) entries
  = filter (fun a =>
      existsb (fun q => (qn_quiz_id q =? quiz) && (question_id q =? a_question_id a))
        questions) entries.
Proof.
  intros NDq. induction entries as [|a es IH]; cbn; [reflexivity|].
  rewrite IH. clear IH.
  rewrite (flat_map_filter (fun q => question_id q =? a_question_id a)),
          (existsb_filter (fun q => question_id q =? a_question_id a)).
  2: { intros q Hq. now rewrite Hq, andb_false_r. }
  2: { intros q Hq. now rewrite Hq, andb_false_r. }
  destruct (filter_key_unique question_id (a_question_id a) questions NDq)
    as [->|[q [-> Eq]]]; cbn; [reflexivity|].
  rewrite Eq, Z.eqb_refl, andb_true_r, orb_false_r, app_nil_r.
  destruct (qn_quiz_id q =? quiz); reflexivity.
Qed.

Lemma flat_map_none {A B} (f : A -> list B) (l : list A) :
  (forall x, In x l -> f x = []) -> flat_map f l = [].
Proof.
  induction l as [|x l IH]; cbn; intros H; [reflexivity|].
  rewrite (H x (or_introl eq_refl)), IH; [reflexivity|].
  intros y Hy. apply H. now right.
Qed.

Section QuizFacts.

Variable imports : Imports.

(** X8: with a primary key on Room, [getAllQuizzesByEventKey] returns the
    quizzes of the room with the key, each once and in table order; for a key
    that no room has the result is empty, not an error. *)
Theorem getAllQuizzesByEventKey_quizzes_of_room (w : World) (k : string) :
  NoDup (map room_id (Room_t (store w))) ->
  exists (r : QueryResult Quiz) (w' : World),
    getAllQuizzesByEventKey imports k w = Ok r w' /\
    store w' = store w /\
    rows r = filter (quiz_in_room k (store w)) (Quiz_t (store w)) /\
    (~ In k (existing_keys (store w)) -> rows r = []).
Proof.
  intros NDr. unfold getAllQuizzesByEventKey, pool_query. cbn [exec].
  eexists. eexists. split; [reflexivity|]. split; [reflexivity|].
  cbn [rows selected]. unfold join_Quiz_Room.
  rewrite (join_quiz_in_room k _ _ NDr). split; [reflexivity|].
  intros Hfree. apply filter_none. intros q _.
  apply not_true_is_false. intros H. apply existsb_exists in H as (r & Hr & H).
  apply andb_true_iff in H as [_ H]. apply String.eqb_eq in H. apply Hfree.
  subst k. unfold existing_keys. now apply in_map.
Qed.

(** X9: with a primary key on Room, a quiz made by [createQuiz] shows up last
    in [getAllQuizzesByEventKey] for the key of its room, and nowhere else:
    the rows for any key are the rows from before, followed by the new quiz
    when its room has that key. *)
Theorem createQuiz_then_getAllQuizzesByEventKey
    (w : World) (maxDuration : Z) (title' : string) (roomId : Z) (k : string) :
  NoDup (map room_id (Room_t (store w))) ->
  let inserted := mkQuiz (nextval (quiz_seq (store w))) maxDuration title' roomId in
  option_map rows
    (result (getAllQuizzesByEventKey imports k
               (after (createQuiz imports maxDuration title' roomId w))))
  = option_map (fun r => rows r ++
                  if quiz_in_room k (store w) inserted then [inserted] else [])
      (result (getAllQuizzesByEventKey imports k w)).
Proof.
  intros NDr inserted. rewrite createQuiz_spec. cbv zeta.
  unfold getAllQuizzesByEventKey, pool_query.
  cbn [after exec store result option_map rows selected]. f_equal.
  unfold join_Quiz_Room. cbn [insert_Quiz Room_t Quiz_t].
  rewrite !(join_quiz_in_room k _ _ NDr), filter_app. reflexivity.
Qed.

(** X10: with a primary key on Question, [getAllAnswersByQuiz] returns the
    answers given to the questions of the quiz, each once and in the order
    they were submitted. *)
Theorem getAllAnswersByQuiz_answers_of_quiz (w : World) (quizId' : Z) :
  NoDup (map question_id (Question_t (store w))) ->
  exists (r : QueryResult AnswerEntry) (w' : World),
    getAllAnswersByQuiz imports quizId' w = Ok r w' /\
    store w' = store w /\
    rows r = filter (answer_in_quiz quizId' (store w)) (AnswerEntry_t (store w)).
Proof.
  intros NDq. unfold getAllAnswersByQuiz, pool_query. cbn [exec].
  eexists. eexists. split; [reflexivity|]. split; [reflexivity|].
  cbn [rows selected]. unfold join_AnswerEntry_Question.
  now rewrite (join_answer_in_quiz quizId' _ _ NDq).
Qed.

(** X11: an answer submitted for a question id that no question has is
    stored and [getAllAnswersByQuestion] returns it, but it reaches no
    other reading: [getAllAnswersByQuiz] for every quiz and
    [getAllAnswersByEventKey] for every event key return what they returned
    before. *)
Theorem answer_to_unknown_question_is_kept_unseen
    (w : World) (q : Z) (participantId answerLabel : string) :
  ~ In q (map question_id (Question_t (store w))) ->
  let w1 := after (createAnswer imports q participantId answerLabel w) in
  option_map rows (result (getAllAnswersByQuestion imports q w1))
    = option_map (fun r => rows r ++ [mkAnswerEntry q participantId answerLabel])
        (result (getAllAnswersByQuestion imports q w)) /\
  (forall quiz : Z,
     result (getAllAnswersByQuiz imports quiz w1)
     = result (getAllAnswersByQuiz imports quiz w)) /\
  (forall eventKey : string,
     result (getAllAnswersByEventKey imports eventKey w1)
     = result (getAllAnswersByEventKey imports eventKey w)).
Proof.
  intros Hq w1. subst w1. rewrite createAnswer_spec. cbn [after].
  assert (forall x, In x (Question_t (store w)) -> (question_id x =? q) = false)
    as Hno.
  { intros x Hx. apply Z.eqb_neq. intros E. apply Hq. rewrite <- E.
    now apply in_map. }
  split; [|split].
  - unfold getAllAnswersByQuestion, pool_query.
    cbn [exec store result option_map rows selected insert_AnswerEntry
         AnswerEntry_t].
    rewrite filter_app. cbn. now rewrite Z.eqb_refl.
  - intros quiz. unfold getAllAnswersByQuiz, pool_query.
    cbn [exec store result]. do 2 f_equal.
    unfold join_AnswerEntry_Question.
    cbn [insert_AnswerEntry AnswerEntry_t Question_t].
    rewrite flat_map_app. cbn [flat_map a_question_id].
    rewrite (flat_map_none _ (Question_t (store w))), !app_nil_r.
    + reflexivity.
    + intros x Hx. now rewrite (Hno x Hx), andb_false_r.
  - intros eventKey. rewrite !getAllAnswersByEventKey_spec. cbn [result store].
    f_equal. apply map_ext_in. intros qn Hqn.
    apply (Permutation_in _ (order_by_perm question_id _)) in Hqn.
    apply join_In in Hqn as [Hqn _].
    unfold bundle_of, choice_labels_of, answer_labels_of.
    cbn [insert_AnswerEntry AnswerEntry_t Choice_t]. f_equal.
    rewrite filter_app, map_app. cbn [filter a_question_id].
    rewrite Z.eqb_sym, (Hno qn Hqn). cbn. now rewrite app_nil_r.
Qed.

End QuizFacts.

(** ** Choices and the statements of the aggregation *)

Lemma choice_rows_labels (s q : Z) (labels : list string) :
  map choice_label (filter (fun c => c_question_id c =? q) (choice_rows s q labels))
  = labels.
Proof.
  revert s; induction labels as [|l labels IH]; intros s; cbn; [reflexivity|].
  rewrite Z.eqb_refl. cbn. now rewrite IH.
Qed.

Lemma choice_rows_other (s q q' : Z) (labels : list string) :
  q' <> q -> filter (fun c => c_question_id c =? q') (choice_rows s q labels) = [].
Proof.
  intros Hne. revert s; induction labels as [|l labels IH]; intros s; cbn;
    [reflexivity|].
  destruct (Z.eqb_spec q q'); [congruence|apply IH].
Qed.

Lemma limit_one_is_max {A} (key : A -> Z) (l : list A) (y : A) :
  limit 1 (order_by_desc key l) = [y] ->
  In y l /\ forall x, In x l -> key x <= key y.
Proof.
  unfold order_by_desc. intros H.
  pose proof (order_by_perm (fun x => - key x) l) as Hperm.
  pose proof (order_by_sorted (fun x => - key x) l) as Hsort.
  destruct (order_by (fun x => - key x) l) as [|z zs]; [discriminate H|].
  cbn in H. injection H as ->. split.
  - eapply Permutation_in; [exact Hperm|now left].
  - intros x Hx. apply (Permutation_in _ (Permutation_sym Hperm)) in Hx.
    destruct Hx as [<-|Hx]; [lia|].
    apply StronglySorted_inv in Hsort as [_ Hall].
    rewrite Forall_forall in Hall. specialize (Hall x Hx). cbn in Hall. lia.
Qed.

Lemma probes_of_bundles {A} (f : A -> Bundle) (g : Z -> list Sent) (l : list A) :
  flat_map (fun x => g (questionId (f x))) l
  = flat_map (fun b => g (questionId b)) (map f l).
Proof. induction l as [|x l IH]; cbn; [reflexivity|now rewrite IH]. Qed.

Section ChoiceFacts.

Variable imports : Imports.

(** X12: [getAllAnswersByEventKey] sends one query for the questions and
    then, bundle by bundle in the order of the result, one for the choices
    and one for the answers of that question: 1 + 2n statements for n
    bundles.  The tables are not touched. *)
Theorem getAllAnswersByEventKey_statements (w : World) (eventKey : string) :
  exists (bundles : list Bundle) (w' : World),
    getAllAnswersByEventKey imports eventKey w = Ok bundles w' /\
    store w' = store w /\
    sent_since w w'
      = mkSent (render imports Q_getAllQuestionsByEventKey) [VText eventKey]
        :: flat_map (fun b => probes imports (questionId b)) bundles /\
    List.length (sent_since w w') = S (2 * List.length bundles).
Proof.
  rewrite getAllAnswersByEventKey_spec. eexists. eexists.
  split; [reflexivity|]. split; [reflexivity|]. rewrite sent_since_app.
  rewrite <- (probes_of_bundles (bundle_of (store w)) (probes imports)).
  split; [reflexivity|]. cbn [List.length]. f_equal. rewrite length_map.
  induction (order_by question_id (join_Question_Quiz_Room eventKey (store w)))
    as [|q qs IH]; cbn; [reflexivity|]. rewrite IH. lia.
Qed.

(** X13: [createChoices] inserts the labels one by one, in order: afterwards
    the choices of the question are the ones it had followed by the given
    labels (duplicates kept), and what [getAllChoicesByQuestion] returns for
    it; the choices of every other question are as before; one statement is
    sent per label, none for an empty list. *)
Theorem createChoices_then_getAllChoicesByQuestion
    (w : World) (q : Z) (labels : list string) :
  exists w' : World,
    createChoices imports q labels w = Ok tt w' /\
    choice_labels_of (store w') q = choice_labels_of (store w) q ++ labels /\
    (forall q', q' <> q ->
       choice_labels_of (store w') q' = choice_labels_of (store w) q') /\
    option_map (fun r => map choice_label (rows r))
      (result (getAllChoicesByQuestion imports q w'))
      = Some (choice_labels_of (store w) q ++ labels) /\
    List.length (sent_since w w') = List.length labels.
Proof.
  destruct (createChoices_spec imports q labels w) as (db' & Hrun & Hc & _).
  eexists. split; [exact Hrun|]. cbn [store].
  assert (choice_labels_of db' q = choice_labels_of (store w) q ++ labels) as E.
  { unfold choice_labels_of. now rewrite Hc, filter_app, map_app, choice_rows_labels. }
  split; [exact E|]. split; [|split].
  - intros q' Hne. unfold choice_labels_of.
    now rewrite Hc, filter_app, (choice_rows_other _ _ _ _ Hne), app_nil_r.
  - unfold getAllChoicesByQuestion, pool_query.
    cbn [exec store result option_map rows selected]. f_equal. exact E.
  - now rewrite sent_since_app, length_map.
Qed.

(** X14: for a quiz that exists, the re-read of [createQuestionAndChoices]
    after its insert is never empty: it finds one row, the question of the
    quiz with the highest id, that row is what the method returns, and it is
    to the id of that row that every choice is attached, whether or not it
    is the question just inserted. *)
Theorem createQuestionAndChoices_attaches_to_returned_row
    (w : World) (label : string) (ca : option string) (quiz : Z)
    (choiceLabels : option (list string)) :
  In quiz (map quiz_id (Quiz_t (store w))) ->
  exists (q0 : Question) (w' : World),
    createQuestionAndChoices imports label ca quiz choiceLabels w
      = Ok (selected [q0]) w' /\
    In q0 (Question_t (store w')) /\
    qn_quiz_id q0 = quiz /\
    (forall x, In x (Question_t (store w')) -> qn_quiz_id x = quiz ->
       question_id x <= question_id q0) /\
    Question_t (store w')
      = Question_t (store w)
        ++ [mkQuestion (nextval (question_seq (store w))) label ca quiz] /\
    Choice_t (store w')
      = Choice_t (store w)
        ++ choice_rows (choice_seq (store w)) (question_id q0)
             (labels_given choiceLabels).
Proof.
  intros _.
  unfold createQuestionAndChoices, bind at 1. rewrite createQuestion_spec.
  cbv zeta. cbn [insert_Question Question_t].
  set (created := mkQuestion (nextval (question_seq (store w))) label ca quiz).
  destruct (select_last_nonempty question_id (fun x => qn_quiz_id x =? quiz)
              (Question_t (store w)) created (Z.eqb_refl _)) as [q0 E].
  rewrite E.
  apply limit_one_is_max in E as [Hin Hmax].
  apply filter_In in Hin as [Hin Hquiz]. apply Z.eqb_eq in Hquiz.
  assert (forall x, In x (Question_t (store w) ++ [created]) -> qn_quiz_id x = quiz ->
            question_id x <= question_id q0) as Hmax'.
  { intros x Hx Ex. apply Hmax. apply filter_In. split; [exact Hx|].
    now apply Z.eqb_eq. }
  exists q0. destruct choiceLabels as [labels|]; cbn [rows selected labels_given].
  - unfold bind.
    match goal with
    | |- context [createChoices imports ?q labels ?w1] =>
        destruct (createChoices_spec imports q labels w1)
          as (db' & Hrun & Hc & _ & _ & Hq & _)
    end.
    rewrite Hrun. cbn [store Question_t Choice_t choice_seq] in Hc, Hq.
    eexists. split; [reflexivity|]. cbn [store]. rewrite Hq.
    repeat split; assumption.
  - eexists. split; [reflexivity|]. cbn [store Question_t Choice_t choice_seq].
    rewrite app_nil_r. repeat split; assumption.
Qed.

End ChoiceFacts.

(** ** How creation and updates show in the aggregation *)

Lemma insert_by_snoc_max {A} (key : A -> Z) (y x : A) (l : list A) :
  key y <= key x -> insert_by key y (l ++ [x]) = insert_by key y l ++ [x].
Proof.
  intros Hle. induction l as [|z l IH]; cbn.
  - destruct (Z.leb_spec (key y) (key x)); [reflexivity|lia].
  - destruct (key y <=? key z); [reflexivity|]. now rewrite IH.
Qed.

Lemma order_by_snoc_max {A} (key : A -> Z) (l : list A) (x : A) :
  Forall (fun y => key y <= key x) l ->
  order_by key (l ++ [x]) = order_by key l ++ [x].
Proof.
  induction 1 as [|y l Hy _ IH]; cbn; [reflexivity|].
  rewrite IH. now apply insert_by_snoc_max.
Qed.

Lemma insert_by_map {A} (key : A -> Z) (g : A -> A) (x : A) (l : list A) :
  (forall y, key (g y) = key y) ->
  insert_by key (g x) (map g l) = map g (insert_by key x l).
Proof.
  intros Hg. induction l as [|z l IH]; cbn; [reflexivity|].
  rewrite !Hg. destruct (key x <=? key z); cbn; [reflexivity|]. now rewrite IH.
Qed.

Lemma order_by_map {A} (key : A -> Z) (g : A -> A) (l : list A) :
  (forall y, key (g y) = key y) ->
  order_by key (map g l) = map g (order_by key l).
Proof.
  intros Hg. induction l as [|x l IH]; cbn; [reflexivity|].
  rewrite IH. now apply insert_by_map.
Qed.

Lemma flat_map_of_map {A B C} (f : B -> list C) (g : A -> B) (l : list A) :
  flat_map f (map g l) = flat_map (fun x => f (g x)) l.
Proof. induction l as [|x l IH]; cbn; [reflexivity|now rewrite IH]. Qed.

Lemma map_of_flat_map {A B C} (g : B -> C) (f : A -> list B) (l : list A) :
  map g (flat_map f l) = flat_map (fun x => map g (f x)) l.
Proof.
  induction l as [|x l IH]; cbn; [reflexivity|]. now rewrite map_app, IH.
Qed.

(** Rewriting questions without touching their quiz commutes with the
    three-table join. *)
Lemma join_of_rewritten_questions (k : string) (db : Database)
    (g : Question -> Question) :
  (forall x, qn_quiz_id (g x) = qn_quiz_id x) ->
  join_Question_Quiz_Room k (set_Question_t (map g (Question_t db)) db)
  = map g (join_Question_Quiz_Room k db).
Proof.
  intros Hg. unfold join_Question_Quiz_Room.
  cbn [set_Question_t Question_t Quiz_t Room_t].
  rewrite flat_map_of_map, map_of_flat_map. apply flat_map_ext. intros qn.
  rewrite map_of_flat_map. apply flat_map_ext. intros qz.
  rewrite map_of_flat_map. apply flat_map_ext. intros r.
  rewrite Hg.
  destruct ((event_key r =? k)%string && (room_id r =? qz_room_id qz)
            && (qn_quiz_id qn =? quiz_id qz)); reflexivity.
Qed.

(** Rewriting quizzes without touching their id and their room leaves the
    three-table join as it was. *)
Lemma join_of_rewritten_quizzes (k : string) (db : Database) (g : Quiz -> Quiz) :
  (forall z, quiz_id (g z) = quiz_id z) ->
  (forall z, qz_room_id (g z) = qz_room_id z) ->
  join_Question_Quiz_Room k (set_Quiz_t (map g (Quiz_t db)) db)
  = join_Question_Quiz_Room k db.
Proof.
  intros Hid Hroom. unfold join_Question_Quiz_Room.
  cbn [set_Quiz_t Question_t Quiz_t Room_t].
  apply flat_map_ext. intros qn. rewrite flat_map_of_map.
  apply flat_map_ext. intros qz. now rewrite Hid, Hroom.
Qed.

Section AggregationAfterWrites.

Variable imports : Imports.

Lemma createQuestionAndChoices_tables (l : string) (ca : option string) (quiz : Z)
    (cl : option (list string)) (w : World) :
  Forall (fun q => question_id q <= question_seq (store w)) (Question_t (store w)) ->
  let created := mkQuestion (nextval (question_seq (store w))) l ca quiz in
  let db' := store (after (createQuestionAndChoices imports l ca quiz cl w)) in
  Room_t db' = Room_t (store w) /\ Quiz_t db' = Quiz_t (store w) /\
  AnswerEntry_t db' = AnswerEntry_t (store w) /\
  Question_t db' = Question_t (store w) ++ [created] /\
  Choice_t db'
    = Choice_t (store w)
      ++ choice_rows (choice_seq (store w)) (question_id created) (labels_given cl).
Proof.
  intros F created. cbv zeta.
  assert (exists a w',
            createQuestionAndChoices imports l ca quiz cl w = Ok a w' /\
            Room_t (store w') = Room_t (store w) /\
            Quiz_t (store w') = Quiz_t (store w) /\
            AnswerEntry_t (store w') = AnswerEntry_t (store w) /\
            Question_t (store w') = Question_t (store w) ++ [created] /\
            Choice_t (store w')
              = Choice_t (store w)
                ++ choice_rows (choice_seq (store w)) (question_id created)
                     (labels_given cl)) as (a & w' & -> & H);
    [|exact H].
  unfold createQuestionAndChoices, bind at 1. rewrite createQuestion_spec.
  cbv zeta. cbn [insert_Question Question_t]. fold created.
  rewrite (select_last_inserted question_id _ _ created (question_seq (store w)));
    [|exact F|reflexivity|apply Z.eqb_refl].
  destruct cl as [labels|]; cbn [rows selected labels_given].
  - unfold bind.
    match goal with
    | |- context [createChoices imports ?q labels ?w1] =>
        destruct (createChoices_spec imports q labels w1)
          as (db' & Hrun & Hc & Hr & Hz & Hq & Ha)
    end.
    rewrite Hrun.
    cbn [store insert_Question Room_t Quiz_t Question_t Choice_t AnswerEntry_t
         choice_seq] in Hc, Hr, Hz, Hq, Ha.
    eexists. eexists. split; [reflexivity|]. cbn [store].
    repeat split; assumption.
  - eexists. eexists. split; [reflexivity|].
    cbn [store Room_t Quiz_t AnswerEntry_t Question_t Choice_t choice_seq].
    rewrite app_nil_r. repeat split; reflexivity.
Qed.

(** X15: on consistent tables, a question created by
    [createQuestionAndChoices] in a quiz of the room shows up as the last
    bundle of the aggregation for that room, with the given labels as its
    choices, and every bundle from before is unchanged; for another room's
    key the aggregation is unchanged.  The new bundle also picks up the
    choices and answers that were already stored under the new id. *)
Theorem createQuestionAndChoices_then_aggregation
    (w : World) (label : string) (ca : option string) (quiz : Z)
    (choiceLabels : option (list string)) (eventKey : string) :
  NoDup (map room_id (Room_t (store w))) ->
  NoDup (map quiz_id (Quiz_t (store w))) ->
  Forall (fun q => question_id q <= question_seq (store w)) (Question_t (store w)) ->
  let created := mkQuestion (nextval (question_seq (store w))) label ca quiz in
  let qid := question_id created in
  result (getAllAnswersByEventKey imports eventKey
            (after (createQuestionAndChoices imports label ca quiz choiceLabels w)))
  = option_map (fun bundles => bundles ++
        if in_room eventKey (store w) created
        then [mkBundle qid label
                (choice_labels_of (store w) qid ++ labels_given choiceLabels)
                (answer_labels_of (store w) qid)]
        else [])
      (result (getAllAnswersByEventKey imports eventKey w)).
Proof.
  intros NDr NDz F created qid.
  destruct (createQuestionAndChoices_tables label ca quiz choiceLabels w F)
    as (Hr & Hz & Ha & Hq & Hc).
  fold created in Hq, Hc. fold qid in Hc.
  set (db' := store (after (createQuestionAndChoices imports label ca quiz
                              choiceLabels w))) in *.
  rewrite !getAllAnswersByEventKey_spec. cbn [result option_map]. fold db'.
  f_equal.
  assert (forall x, in_room eventKey db' x = in_room eventKey (store w) x) as Hin.
  { intros x. unfold in_room. now rewrite Hr, Hz. }
  assert (join_Question_Quiz_Room eventKey db'
          = join_Question_Quiz_Room eventKey (store w)
            ++ if in_room eventKey (store w) created then [created] else []) as Hjoin.
  { rewrite (join_in_room eventKey db'), (join_in_room eventKey (store w));
      try assumption; [|now rewrite Hr|now rewrite Hz].
    rewrite Hq, filter_app. cbn [filter]. rewrite Hin.
    rewrite (filter_ext _ _ Hin). reflexivity. }
  assert (forall x, In x (join_Question_Quiz_Room eventKey (store w)) ->
            question_id x <= question_seq (store w)) as Hold.
  { intros x Hx. apply join_In in Hx as [Hx _].
    rewrite Forall_forall in F. exact (F x Hx). }
  assert (forall x, In x (order_by question_id
                            (join_Question_Quiz_Room eventKey (store w))) ->
            bundle_of db' x = bundle_of (store w) x) as Hsame.
  { intros x Hx. apply (Permutation_in _ (order_by_perm question_id _)) in Hx.
    specialize (Hold x Hx).
    unfold bundle_of, choice_labels_of, answer_labels_of. rewrite Ha, Hc.
    rewrite filter_app, choice_rows_other, app_nil_r; [reflexivity|].
    subst qid. cbn. unfold nextval. lia. }
  rewrite Hjoin. destruct (in_room eventKey (store w) created).
  - rewrite order_by_snoc_max.
    + rewrite map_app, (map_ext_in _ _ _ Hsame). f_equal. cbn [map].
      unfold bundle_of, choice_labels_of, answer_labels_of. fold qid.
      rewrite Ha, Hc, filter_app, map_app, choice_rows_labels. reflexivity.
    + apply Forall_forall. intros x Hx. specialize (Hold x Hx).
      cbn. unfold nextval. lia.
  - rewrite !app_nil_r. now apply map_ext_in.
Qed.

(** X16: [updateQuestion] shows in the aggregation as a new label and
    nothing else: for every event key the bundles are the ones from before,
    in the same order and with the same choices and answers, the bundle of
    the given question carrying the new label. *)
Theorem updateQuestion_then_aggregation
    (w : World) (qid : Z) (label : string) (ca : option string)
    (eventKey : string) :
  result (getAllAnswersByEventKey imports eventKey
            (after (updateQuestion imports qid label ca w)))
  = option_map (map (relabel qid label))
      (result (getAllAnswersByEventKey imports eventKey w)).
Proof.
  rewrite updateQuestion_spec. cbv zeta. cbn [after].
  rewrite !getAllAnswersByEventKey_spec. cbn [result option_map store]. f_equal.
  unfold update_where.
  rewrite join_of_rewritten_questions, order_by_map, !map_map.
  - apply map_ext. intros x.
    unfold bundle_of, relabel, choice_labels_of, answer_labels_of.
    cbn [set_Question_t Choice_t AnswerEntry_t].
    destruct (question_id x =? qid) eqn:E;
      cbn [questionId question_id question_label choices answers];
      rewrite E; reflexivity.
  - intros x. destruct (question_id x =? qid); reflexivity.
  - intros x. destruct (question_id x =? qid); reflexivity.
Qed.

(** X17: [updateQuiz] never shows in the aggregation: for every event key
    [getAllAnswersByEventKey] returns after it what it returned before. *)
Theorem updateQuiz_then_aggregation
    (w : World) (quiz : Z) (maxDuration : Z) (title' : string) (eventKey : string) :
  result (getAllAnswersByEventKey imports eventKey
            (after (updateQuiz imports quiz maxDuration title' w)))
  = result (getAllAnswersByEventKey imports eventKey w).
Proof.
  rewrite updateQuiz_spec. cbv zeta. cbn [after].
  rewrite !getAllAnswersByEventKey_spec. cbn [result store]. f_equal.
  unfold update_where. rewrite join_of_rewritten_quizzes.
  - reflexivity.
  - intros z. destruct (quiz_id z =? quiz); reflexivity.
  - intros z. destruct (quiz_id z =? quiz); reflexivity.
Qed.

End AggregationAfterWrites.

(** ** What the methods keep *)

Lemma extends_refl {A} (l : list A) : extends l l.
Proof. exists []. now rewrite app_nil_r. Qed.

Lemma extends_snoc {A} (l : list A) (x : A) : extends l (l ++ [x]).
Proof. now exists [x]. Qed.

Lemma extends_trans {A} (l1 l2 l3 : list A) :
  extends l1 l2 -> extends l2 l3 -> extends l1 l3.
Proof.
  intros [t ->] [t' ->]. exists (t ++ t'). now rewrite app_assoc.
Qed.

Lemma kept_refl {A} (l : list A) : exists added, Permutation l (l ++ added).
Proof. exists []. now rewrite app_nil_r. Qed.

Lemma kept_snoc {A} (l : list A) (x : A) :
  exists added, Permutation (l ++ [x]) (l ++ added).
Proof. now exists [x]. Qed.

Lemma kept_trans {A} (l1 l2 l3 : list A) :
  (exists added, Permutation l2 (l1 ++ added)) ->
  (exists added, Permutation l3 (l2 ++ added)) ->
  exists added, Permutation l3 (l1 ++ added).
Proof.
  intros [t Ht] [t' Ht']. exists (t ++ t'). rewrite Ht', app_assoc.
  now apply Permutation_app_tail.
Qed.

Lemma grows_refl (db : Database) : grows db db.
Proof.
  repeat split; try apply extends_refl; try apply kept_refl; lia.
Qed.

Lemma grows_trans (db1 db2 db3 : Database) :
  grows db1 db2 -> grows db2 db3 -> grows db1 db3.
Proof.
  intros (A1 & A2 & A3 & A4 & A5 & A6 & A7 & A8 & A9)
         (B1 & B2 & B3 & B4 & B5 & B6 & B7 & B8 & B9).
  repeat split; try (eapply extends_trans; eassumption);
    try (eapply kept_trans; eassumption); lia.
Qed.

Section Keeping.

Variable imports : Imports.
Variable P : Database -> Prop.
Variable ok : forall R, stmt R -> bool.

Hypothesis exec_keeps :
  forall R (s : stmt R) (vs : list value) (db db' : Database) (r : QueryResult R),
    ok R s = true -> P db -> exec imports s vs db = Some (db', r) -> P db'.

Lemma pool_query_keeps {R} (s : stmt R) (vs : list value) :
  ok R s = true -> preserves P (pool_query imports s vs).
Proof.
  intros Hs w Hw. unfold pool_query.
  destruct (exec imports s vs (store w)) as [[db' r]|] eqn:E; cbn; [|exact Hw].
  exact (exec_keeps R s vs (store w) db' r Hs Hw E).
Qed.

Lemma generateUniqueEventKey_keeps (fuel : nat) :
  (forall k, ok _ (Q_generateUniqueEventKey k) = true) ->
  preserves P (generateUniqueEventKey imports fuel).
Proof.
  intros Hok. induction fuel as [|fuel IH]; cbn [generateUniqueEventKey].
  - apply preserves_throw.
  - apply preserves_bind; [apply preserves_uuidv4|intros u].
    apply preserves_bind; [apply pool_query_keeps, Hok|intros r].
    destruct (0 <? rowCount r)%nat; [exact IH|apply preserves_ret].
Qed.

Lemma createChoices_keeps (q : Z) (labels : list string) :
  ok _ Q_createChoices_insert = true ->
  preserves P (createChoices imports q labels).
Proof.
  intros Hok. induction labels as [|l labels IH]; cbn [createChoices].
  - apply preserves_ret.
  - apply preserves_bind; [now apply pool_query_keeps|intros _; exact IH].
Qed.

Lemma getAllAnswersByEventKey_loop_keeps (qs : list Iface.Question) :
  ok _ Q_getAllChoicesByQuestion = true ->
  ok _ Q_getAllAnswersByQuestion = true ->
  forall acc, preserves P (getAllAnswersByEventKey_loop imports qs acc).
Proof.
  intros Hc Ha. induction qs as [|q qs IH]; intros acc;
    cbn [getAllAnswersByEventKey_loop].
  - apply preserves_ret.
  - apply preserves_bind; [now apply pool_query_keeps|intros r].
    apply preserves_bind; [now apply pool_query_keeps|intros r']. apply IH.
Qed.

End Keeping.

Ltac keeps H :=
  repeat first
    [ apply preserves_ret
    | apply preserves_throw
    | apply (pool_query_keeps _ _ _ H); reflexivity
    | apply (generateUniqueEventKey_keeps _ _ _ H); intros; reflexivity
    | apply (createChoices_keeps _ _ _ H); reflexivity
    | apply (getAllAnswersByEventKey_loop_keeps _ _ _ H); reflexivity
    | apply preserves_bind; [|intros ?]
    | match goal with
      | |- preserves _ (match ?x with _ => _ end) => destruct x
      end ].

Ltac unfold_methods :=
  unfold ignore, resetDatabase, getAllFromTable, getAllQuestionsByEventKey,
    getAllChoicesByQuestion, createAnswer, createRoom, createQuiz,
    createQuestionAndChoices, createQuestion, getAllAnswersByQuiz,
    getRoomByEventKey, getAllQuizzesByEventKey, updateQuiz, updateQuestion,
    getAllRoomsByPresenter, getAllAnswersByQuestion, getAllAnswersByEventKey.

Section KeptByMethods.

Variable imports : Imports.

Lemma exec_select_frame {R} (s : stmt R) (vs : list value) (db db' : Database)
    (r : QueryResult R) :
  is_select s = true -> exec imports s vs db = Some (db', r) -> db' = db.
Proof.
  intros Hs E.
  destruct s; try discriminate Hs; cbn in E;
    repeat match type of E with
    | match ?v with _ => _ end = _ => destruct v; try discriminate E
    | (if ?b then _ else _) = _ => destruct b; try discriminate E
    end;
    now injection E as <- _.
Qed.

Lemma exec_grows {R} (s : stmt R) (vs : list value) (db db' : Database)
    (r : QueryResult R) :
  own_text s = true -> exec imports s vs db = Some (db', r) -> grows db db'.
Proof.
  intros Hs E.
  destruct s; try discriminate Hs; cbn in E;
    repeat match type of E with
    | match ?v with _ => _ end = _ => destruct v; try discriminate E
    | (if ?b then _ else _) = _ => destruct b; try discriminate E
    end;
    injection E as <- _;
    unfold grows; cbn; unfold nextval;
    repeat split;
    try apply extends_refl; try apply extends_snoc; try lia;
    try apply kept_refl;
    try (rewrite map_app; apply kept_snoc);
    try (unfold update_where; rewrite map_map;
         erewrite map_ext; [apply kept_refl|];
         intros a; cbn; match goal with |- context [if ?b then _ else _] =>
           destruct b end; reflexivity).
Qed.

(** X18: run from consistent tables, any sequence of calls of the methods
    other than [resetDatabase] and [getAllFromTable] leaves consistent
    tables, whether the calls succeed or fail: ids stay unique in each table
    and each sequence stays at or above the ids in use. *)
Theorem calls_keep_tables_consistent (cs : list call) (w : World) :
  Forall (fun c => sends_foreign_text c = false) cs ->
  (forall i, is_uuid (uuids w i) = true) ->
  consistent (store w) ->
  consistent (store (perform_all imports cs w)).
Proof.
  intros Hcs _. revert w.
  induction Hcs as [|c cs Hc _ IH]; intros w Hw; cbn [perform_all]; [exact Hw|].
  apply IH. now apply perform_preserves.
Qed.

(** X19: no sequence of calls of the methods other than [resetDatabase] and
    [getAllFromTable] deletes anything: rooms, choices and answers are never
    rewritten or reordered, only added at the end; every quiz and every
    question stays, under its id and with its parent; and the sequences
    never go back. *)
Theorem calls_never_delete (cs : list call) (w : World) :
  Forall (fun c => sends_foreign_text c = false) cs ->
  (forall i, is_uuid (uuids w i) = true) ->
  grows (store w) (store (perform_all imports cs w)).
Proof.
  intros Hcs _. revert w.
  induction Hcs as [|c cs Hc _ IH]; intros w; cbn [perform_all];
    [apply grows_refl|].
  apply (grows_trans _ (store (after (perform imports c w)))); [|apply IH].
  assert (forall R (s : stmt R) vs db db' (r : QueryResult R),
            own_text s = true -> grows (store w) db ->
            exec imports s vs db = Some (db', r) -> grows (store w) db') as H.
  { intros R s vs db db' r Hs Hg E.
    exact (grows_trans _ _ _ Hg (exec_grows s vs db db' r Hs E)). }
  assert (preserves (grows (store w)) (perform imports c)) as Hp.
  { destruct c; try discriminate Hc; cbn [perform]; unfold_methods; keeps H. }
  apply Hp, grows_refl.
Qed.

(** X20: the methods that read through statements of the class never change
    a table, whether they succeed or fail: the getters other than
    [getAllFromTable], [getAllAnswersByEventKey] with all the queries of its
    loop, and [generateUniqueEventKey] however many candidates it tries. *)
Theorem reading_methods_change_nothing (c : call) (w : World) :
  read_only c = true ->
  (forall i, is_uuid (uuids w i) = true) ->
  store (after (perform imports c w)) = store w.
Proof.
  intros Hc _.
  assert (forall R (s : stmt R) vs db db' (r : QueryResult R),
            is_select s = true -> db = store w ->
            exec imports s vs db = Some (db', r) -> db' = store w) as H.
  { intros R s vs db db' r Hs Hdb E.
    now rewrite (exec_select_frame s vs db db' r Hs E). }
  assert (preserves (fun db => db = store w) (perform imports c)) as Hp.
  { destruct c; try discriminate Hc; cbn [perform]; unfold_methods; keeps H. }
  now apply Hp.
Qed.

End KeptByMethods.

(** ** The further properties on the sample deployment *)

Ltac not_in := cbn; intuition discriminate.

Lemma update_of_missing_id_changes_nothing_witness :
  ~ In 9 (map quiz_id (Quiz_t (store sample_world))) /\
  ~ In 9 (map question_id (Question_t (store sample_world))) /\
  (exists w' : World,
     updateQuiz sample_imports 9 60 "Late" sample_world = Ok (selected []) w' /\
     store w' = store sample_world /\
     List.length (sent_since sample_world w') = 2%nat) /\
  (exists w' : World,
     updateQuestion sample_imports 9 "Late" (Some "x") sample_world
       = Ok (selected []) w' /\
     store w' = store sample_world /\
     List.length (sent_since sample_world w') = 2%nat).
Proof.
  assert (~ In 9 (map quiz_id (Quiz_t (store sample_world)))) as H1 by not_in.
  assert (~ In 9 (map question_id (Question_t (store sample_world)))) as H2
    by not_in.
  split; [exact H1|]. split; [exact H2|]. split.
  - exact (proj1 (update_of_missing_id_changes_nothing sample_imports sample_world 9)
             H1 60 "Late").
  - exact (proj2 (update_of_missing_id_changes_nothing sample_imports sample_world 9)
             H2 "Late" (Some "x")).
Defined.

Lemma generated_key_creates_one_room_witness :
  (forall i, is_uuid (uuids sample_world i) = true) /\
  keys_unique (store sample_world) /\
  generateUniqueEventKey sample_imports 5 sample_world
    = Ok "3f2504e0" (after (generateUniqueEventKey sample_imports 5 sample_world)) /\
  exists w2 : World,
    createRoom sample_imports "3f2504e0" "Room4" "p2"
      (after (generateUniqueEventKey sample_imports 5 sample_world))
      = Ok (selected [mkRoom 4 "3f2504e0" "Room4" "p2"]) w2 /\
    keys_unique (store w2) /\
    String.length "3f2504e0" = 8%nat.
Proof.
  assert (forall i, is_uuid (uuids sample_world i) = true) as Hu
    by (intros [|[|i]]; reflexivity).
  assert (keys_unique (store sample_world)) as Hk by (unfold keys_unique; cbn; nodup).
  split; [exact Hu|]. split; [exact Hk|]. split; [reflexivity|].
  exact (generated_key_creates_one_room sample_imports sample_world
           (after (generateUniqueEventKey sample_imports 5 sample_world))
           5 "3f2504e0" "Room4" "p2" Hu Hk eq_refl).
Defined.

Lemma getRoomByEventKey_at_most_one_witness :
  keys_unique (store sample_world) /\
  exists (r : QueryResult Room) (w' : World),
    getRoomByEventKey sample_imports "abc123de" sample_world = Ok r w' /\
    store w' = store sample_world /\
    (List.length (rows r) <= 1)%nat /\
    Forall (fun room => event_key room = "abc123de") (rows r) /\
    (~ In "abc123de" (existing_keys (store sample_world)) -> rows r = []).
Proof.
  assert (keys_unique (store sample_world)) as Hk by (unfold keys_unique; cbn; nodup).
  split; [exact Hk|].
  exact (getRoomByEventKey_at_most_one sample_imports sample_world "abc123de" Hk).
Defined.

Lemma getAllQuizzesByEventKey_quizzes_of_room_witness :
  NoDup (map room_id (Room_t (store sample_world))) /\
  exists (r : QueryResult Quiz) (w' : World),
    getAllQuizzesByEventKey sample_imports "abc123de" sample_world = Ok r w' /\
    rows r = [mkQuiz 1 10 "Q1" 1; mkQuiz 2 20 "Q2" 1].
Proof.
  assert (NoDup (map room_id (Room_t (store sample_world)))) as H by (cbn; nodup).
  split; [exact H|].
  destruct (getAllQuizzesByEventKey_quizzes_of_room sample_imports sample_world
              "abc123de" H) as (r & w' & Hrun & _ & Hrows & _).
  exists r, w'. split; [exact Hrun|]. rewrite Hrows. reflexivity.
Defined.

Lemma createQuiz_then_getAllQuizzesByEventKey_witness :
  NoDup (map room_id (Room_t (store sample_world))) /\
  option_map rows
    (result (getAllQuizzesByEventKey sample_imports "7c9e6679"
               (after (createQuiz sample_imports 15 "Q4" 3 sample_world))))
  = Some [mkQuiz 4 15 "Q4" 3].
Proof.
  assert (NoDup (map room_id (Room_t (store sample_world)))) as H by (cbn; nodup).
  split; [exact H|].
  rewrite (createQuiz_then_getAllQuizzesByEventKey sample_imports sample_world
             15 "Q4" 3 "7c9e6679" H).
  reflexivity.
Defined.

Lemma getAllAnswersByQuiz_answers_of_quiz_witness :
  NoDup (map question_id (Question_t (store sample_world))) /\
  exists (r : QueryResult AnswerEntry) (w' : World),
    getAllAnswersByQuiz sample_imports 1 sample_world = Ok r w' /\
    rows r = [mkAnswerEntry 1 "u1" "4"; mkAnswerEntry 1 "u1" "4"].
Proof.
  assert (NoDup (map question_id (Question_t (store sample_world)))) as H
    by (cbn; nodup).
  split; [exact H|].
  destruct (getAllAnswersByQuiz_answers_of_quiz sample_imports sample_world 1 H)
    as (r & w' & Hrun & _ & Hrows).
  exists r, w'. split; [exact Hrun|]. rewrite Hrows. reflexivity.
Defined.

Lemma answer_to_unknown_question_is_kept_unseen_witness :
  ~ In 99 (map question_id (Question_t (store sample_world))) /\
  option_map rows
    (result (getAllAnswersByQuestion sample_imports 99
               (after (createAnswer sample_imports 99 "u7" "lost" sample_world))))
  = Some [mkAnswerEntry 99 "u7" "lost"] /\
  result (getAllAnswersByEventKey sample_imports "abc123de"
            (after (createAnswer sample_imports 99 "u7" "lost" sample_world)))
  = result (getAllAnswersByEventKey sample_imports "abc123de" sample_world).
Proof.
  assert (~ In 99 (map question_id (Question_t (store sample_world)))) as H
    by not_in.
  split; [exact H|].
  destruct (answer_to_unknown_question_is_kept_unseen sample_imports sample_world
              99 "u7" "lost" H) as (H1 & _ & H3).
  split; [rewrite H1; reflexivity|apply H3].
Defined.

Lemma createQuestionAndChoices_then_aggregation_witness :
  NoDup (map room_id (Room_t (store sample_world))) /\
  NoDup (map quiz_id (Quiz_t (store sample_world))) /\
  Forall (fun q => question_id q <= question_seq (store sample_world))
    (Question_t (store sample_world)) /\
  result (getAllAnswersByEventKey sample_imports "abc123de"
            (after (createQuestionAndChoices sample_imports "Red or blue?" None 2
                      (Some ["red"; "blue"]) sample_world)))
  = Some [mkBundle 1 "2+2?" ["3"; "4"; "5"] ["4"; "4"];
          mkBundle 2 "Why?" [] [];
          mkBundle 4 "Red or blue?" ["red"; "blue"] []].
Proof.
  assert (NoDup (map room_id (Room_t (store sample_world)))) as H1 by (cbn; nodup).
  assert (NoDup (map quiz_id (Quiz_t (store sample_world)))) as H2 by (cbn; nodup).
  assert (Forall (fun q => question_id q <= question_seq (store sample_world))
            (Question_t (store sample_world))) as H3
    by (cbn; repeat constructor; cbn; lia).
  split; [exact H1|]. split; [exact H2|]. split; [exact H3|].
  rewrite (createQuestionAndChoices_then_aggregation sample_imports sample_world
             "Red or blue?" None 2 (Some ["red"; "blue"]) "abc123de" H1 H2 H3).
  reflexivity.
Defined.

Lemma createQuestionAndChoices_attaches_to_returned_row_witness :
  In 2 (map quiz_id (Quiz_t (store sample_world))) /\
  result (createQuestionAndChoices sample_imports "Red or blue?" None 2
            (Some ["red"; "blue"]) sample_world)
    = Some (selected [mkQuestion 4 "Red or blue?" None 2]).
Proof.
  assert (In 2 (map quiz_id (Quiz_t (store sample_world)))) as H by (cbn; tauto).
  split; [exact H|].
  destruct (createQuestionAndChoices_attaches_to_returned_row sample_imports
              sample_world "Red or blue?" None 2 (Some ["red"; "blue"]) H)
    as (q0 & w' & Hrun & Hin & _ & Hmax & Hq & _).
  rewrite Hrun. cbn [result]. do 3 f_equal.
  rewrite Hq in Hin. cbn in Hin.
  assert (question_id (mkQuestion 4 "Red or blue?" None 2) <= question_id q0) as Hle.
  { apply Hmax; [rewrite Hq; cbn; tauto|reflexivity]. }
  cbn in Hle.
  destruct Hin as [<-|[<-|[<-|[<-|[]]]]]; cbn in Hle; try lia. reflexivity.
Defined.

Lemma updateQuestion_sets_label_and_answer_witness :
  In 1 (map question_id (Question_t (store sample_world))) /\
  exists q : Question,
    option_map rows
      (result (updateQuestion sample_imports 1 "1+1?" (Some "2") sample_world))
    = Some [q] /\
    question_id q = 1 /\ question_label q = "1+1?" /\ correct_answer q = Some "2".
Proof.
  assert (In 1 (map question_id (Question_t (store sample_world)))) as H
    by (cbn; tauto).
  split; [exact H|].
  destruct (updateQuestion_sets_label_and_answer sample_imports sample_world
              1 "1+1?" "2")
    as (r & w' & Hrun & _ & Hall & Hone).
  destruct (Hone H) as [q Hq]. exists q. rewrite Hrun. cbn [result option_map].
  rewrite Hq in Hall |- *. split; [reflexivity|].
  inversion Hall as [|? ? Hprops _]. exact Hprops.
Defined.

Lemma calls_keep_tables_consistent_witness :
  Forall (fun c => sends_foreign_text c = false) sample_calls /\
  (forall i, is_uuid (uuids sample_world i) = true) /\
  consistent (store sample_world) /\
  consistent (store (perform_all sample_imports sample_calls sample_world)).
Proof.
  assert (Forall (fun c => sends_foreign_text c = false) sample_calls) as H
    by (repeat constructor).
  assert (forall i, is_uuid (uuids sample_world i) = true) as Hu
    by (intros [|[|i]]; reflexivity).
  assert (consistent (store sample_world)) as C.
  { split; [repeat split; cbn; nodup|].
    repeat split; cbn; repeat constructor; cbn; lia. }
  split; [exact H|]. split; [exact Hu|]. split; [exact C|].
  exact (calls_keep_tables_consistent sample_imports sample_calls sample_world
           H Hu C).
Defined.

Lemma calls_never_delete_witness :
  Forall (fun c => sends_foreign_text c = false) sample_calls /\
  (forall i, is_uuid (uuids sample_world i) = true) /\
  grows (store sample_world)
    (store (perform_all sample_imports sample_calls sample_world)).
Proof.
  assert (Forall (fun c => sends_foreign_text c = false) sample_calls) as H
    by (repeat constructor).
  assert (forall i, is_uuid (uuids sample_world i) = true) as Hu
    by (intros [|[|i]]; reflexivity).
  split; [exact H|]. split; [exact Hu|].
  exact (calls_never_delete sample_imports sample_calls sample_world H Hu).
Defined.

Lemma reading_methods_change_nothing_witness :
  read_only (Call_getAllAnswersByEventKey "abc123de") = true /\
  (forall i, is_uuid (uuids sample_world i) = true) /\
  store (after (perform sample_imports (Call_getAllAnswersByEventKey "abc123de")
                  sample_world))
  = store sample_world.
Proof.
  assert (forall i, is_uuid (uuids sample_world i) = true) as Hu
    by (intros [|[|i]]; reflexivity).
  split; [reflexivity|]. split; [exact Hu|].
  exact (reading_methods_change_nothing sample_imports
           (Call_getAllAnswersByEventKey "abc123de") sample_world eq_refl Hu).
Defined.
